(** * s3file: a file-like proxy over S3 objects

    Shallow embedding of [s3file/s3file.py] (the [s3errors] context manager
    and the [S3File] class) and of [s3file/openers.py] ([open_url]),
    together with the two collaborators the class drives: the local scratch
    file returned by [tempfile.TemporaryFile] and the boto3 object
    ([download_fileobj] / [upload_fileobj]).

    Python objects with mutable state are modelled by explicit state
    passing: the [_tempfile] attribute of an [S3File] lives in the [State]
    threaded through a small state-and-exception monad, next to the remote
    store and a log of the collaborator calls made so far.

    The scratch file follows CPython 3.11 on a POSIX system.  Failures that
    no argument of a call determines are outside the model: a file system
    that is full or limits the size of a file, and memory that cannot be
    allocated. *)

From Stdlib Require Import String Ascii List ZArith Lia Bool Arith.
Import ListNotations.

Open Scope string_scope.
Open Scope list_scope.

(** ** Strings *)

(** Python's [c in s] for a one-character [c]. *)
Fixpoint contains (c : ascii) (s : string) : bool :=
  match s with
  | EmptyString => false
  | String d s' => Ascii.eqb c d || contains c s'
  end.

(** Number of occurrences of [c] in [s]. *)
Fixpoint occurrences (c : ascii) (s : string) : nat :=
  match s with
  | EmptyString => 0
  | String d s' => (if Ascii.eqb c d then 1 else 0) + occurrences c s'
  end.

(** [set(s) - set(alphabet)] is empty. *)
Fixpoint all_in (alphabet : string) (s : string) : bool :=
  match s with
  | EmptyString => true
  | String d s' => contains d alphabet && all_in alphabet s'
  end.

(** [len(s) > len(set(s))]: some character occurs twice. *)
Fixpoint has_duplicates (s : string) : bool :=
  match s with
  | EmptyString => false
  | String d s' => contains d s' || has_duplicates s'
  end.

Definition newline : ascii := "010"%char.
Definition carriage_return : ascii := "013"%char.
Definition nul : ascii := "000"%char.

(** The content of a file and the data read and written: the bytes of a
    binary-mode file, the characters of a text-mode file. *)
Definition bytes := list ascii.

(** ** Exceptions *)

Inductive Errno :=
  EPERM | ENOENT | ENXIO | EACCES | EINVAL | EOPNOTSUPP | ETIMEDOUT.

(** [os.strerror] on the errno values that occur. *)
Definition strerror (e : Errno) : string :=
  match e with
  | EPERM => "Operation not permitted"
  | ENOENT => "No such file or directory"
  | ENXIO => "No such device or address"
  | EACCES => "Permission denied"
  | EINVAL => "Invalid argument"
  | EOPNOTSUPP => "Operation not supported"
  | ETIMEDOUT => "Connection timed out"
  end.

(** The part of [ClientError.response] that [s3errors] looks at:
    [response['Error']['Code']] and
    [response['ResponseMetadata']['HTTPStatusCode']], either of which may be
    missing from the dictionary. *)
Record Response := mkResponse {
  Error_Code : option string;
  HTTPStatusCode : option Z
}.

Inductive exn :=
| ClientError (response : Response)
| SSLError
| EndpointConnectionError
| IOError (errno : option Errno) (message : string) (filename : option string)
| ValueError (message : string)
| UnsupportedOperation (message : string)
| OverflowError (message : string)
| AttributeError (message : string)
| OtherException (name : string).

(** [IOError(errno.E, os.strerror(errno.E), path)] *)
Definition IOError_errno (e : Errno) (path : string) : exn :=
  IOError (Some e) (strerror e) (Some path).

(** [IOError('...')] *)
Definition IOError_msg (msg : string) : exn := IOError None msg None.

(** The store-agnostic names the specification gives to the [IOError]s the
    module raises.  (Its [InvalidMode] is the [ValueError] with which
    [TemporaryFile] rejects a mode.) *)
Inductive ErrorKind :=
| NotReadable | NotWritable
| NotFound | PermissionDenied | TimedOut | Unsupported.

Definition kind_of (e : exn) : option ErrorKind :=
  match e with
  | IOError (Some EPERM) _ _ => Some PermissionDenied
  | IOError (Some EACCES) _ _ => Some PermissionDenied
  | IOError (Some ENOENT) _ _ => Some NotFound
  | IOError (Some EOPNOTSUPP) _ _ => Some Unsupported
  | IOError (Some ETIMEDOUT) _ _ => Some TimedOut
  | IOError None msg None =>
      if String.eqb msg "not open for reading" then Some NotReadable
      else if String.eqb msg "not open for writing" then Some NotWritable
      else None
  | _ => None
  end.

(** ** The scratch file

    [tempfile.TemporaryFile(mode)] opens a descriptor of its own and hands
    it with the mode to [io.open], which validates the mode and fixes what the
    file object is and can do: a buffered binary file when the mode has a
    [b], and otherwise a text file (a [TextIOWrapper] with universal
    newlines) over one.  The record keeps that, the two capabilities
    [io.open] derives from the mode, the content, the cursor and the closed
    flag.

    An [a] in the mode makes the file writable and nothing more: the
    descriptor was opened by [TemporaryFile] without [O_APPEND], and [io.open]
    on a descriptor only moves to the end of the file, once, when it is
    opened, which on the fresh, empty file is its start.  Every later write
    goes to the cursor.

    In text mode [buf] holds the characters as they were written (a written
    newline stays a newline on POSIX); carriage returns are translated when
    the file is read.  The encoding is the default one, UTF-8, which can
    write every character.  A character counts for one byte, which is exact
    for 7-bit content; positions in a text file with other characters are
    byte offsets that the model does not compute.  Nor does the record keep what
    the text layer holds back: the characters it has read ahead after a
    [read(n)], a [readline] or a [readlines], and the characters of a [write]
    it has not handed down yet.  Until the next [seek] relative to the start
    or to the end, the place of a write and the number [tell] returns depend
    on the first, and [tell] can be disabled (a [readlines] does that even
    where it is refused); and a [read(n)], [readline] or [readlines] that
    directly follows a [write] does not see it.  The model answers from the
    cursor and the content there.  It is exact as long as a [seek] relative
    to the start or to the end separates each [read(n)], [readline] or
    [readlines] from a later [write], [tell], [truncate] or [seek] relative
    to the cursor, and a [seek], a [tell], a [truncate] or a [read()] to the
    end separates each [write] from a later [read(n)], [readline] or
    [readlines]. *)

Record TempFile := mkTempFile {
  tf_binary : bool;
  tf_readable : bool;
  tf_writable : bool;
  buf : bytes;
  pos : nat;
  tf_closed : bool
}.

Definition b2n (b : bool) : nat := if b then 1 else 0.

(** Mode validation of [io.open] (Python 3.11 and later, where the
    alphabet is [axrwb+t]): unknown or repeated characters, text together
    with binary, more than one or none of create/read/write/append are each a
    [ValueError]. *)
Definition io_open_mode (mode : string) : exn + TempFile :=
  if negb (all_in "axrwb+t" mode) || has_duplicates mode then
    inl (ValueError ("invalid mode: '" ++ mode ++ "'"))
  else
    let creating := contains "x" mode in
    let reading := contains "r" mode in
    let writing := contains "w" mode in
    let appending := contains "a" mode in
    let updating := contains "+" mode in
    let text := contains "t" mode in
    let binary := contains "b" mode in
    if text && binary then
      inl (ValueError "can't have text and binary mode at once")
    else if Nat.ltb 1 (b2n creating + b2n reading + b2n writing + b2n appending) then
      inl (ValueError "must have exactly one of create/read/write/append mode")
    else if negb (creating || reading || writing || appending) then
      inl (ValueError
             "Must have exactly one of create/read/write/append mode and at most one plus")
    else
      inr {| tf_binary := binary;
             tf_readable := reading || updating;
             tf_writable := writing || appending || creating || updating;
             buf := [];
             pos := 0;
             tf_closed := false |}.

(** A fresh, empty temporary file opened with [mode]. *)
Definition TemporaryFile (mode : string) : exn + TempFile := io_open_mode mode.

(** *** Content *)

(** Content after writing [d] at offset [p]: the gap up to [p] is filled
    with zeros, the bytes under [d] are replaced, the tail stays.  Writing
    nothing changes nothing, wherever the cursor is. *)
Definition overwrite (b : bytes) (p : nat) (d : bytes) : bytes :=
  match d with
  | [] => b
  | _ => firstn p b ++ repeat nul (p - length b) ++ d ++ skipn (p + length d) b
  end.

(** Content after resizing to [n]: cut, or extended with zeros. *)
Definition resize (b : bytes) (n : nat) : bytes :=
  firstn n b ++ repeat nul (n - length b).

(** Universal newlines, as a text file applies them when it is read: a
    carriage return followed by a newline, and a carriage return alone,
    each become one newline. *)
Fixpoint universal_newlines (b : bytes) : bytes :=
  match b with
  | [] => []
  | c :: b' =>
      if Ascii.eqb c carriage_return then
        match b' with
        | d :: b'' =>
            if Ascii.eqb d newline then newline :: universal_newlines b''
            else newline :: universal_newlines b'
        | [] => [newline]
        end
      else c :: universal_newlines b'
  end.

(** Content without carriage returns: reading it translates nothing. *)
Definition plain_newlines (b : bytes) : bool :=
  negb (existsb (Ascii.eqb carriage_return) b).

(** 7-bit content: every character is one byte in the file. *)
Definition seven_bit (b : bytes) : bool :=
  forallb (fun c => Nat.ltb (nat_of_ascii c) 128) b.

(** *** Reading bytes *)

(** The next line of a binary file: up to and including the first
    newline. *)
Fixpoint take_line (b : bytes) : bytes :=
  match b with
  | [] => []
  | c :: b' => if Ascii.eqb c newline then [c] else c :: take_line b'
  end.

(** The lines of [b], each with its terminator; with a positive [hint] no
    further line is read once the total size exceeds it.  [fuel] bounds the
    number of lines. *)
Fixpoint take_lines (fuel : nat) (hint : Z) (total : Z) (b : bytes)
  : list bytes :=
  match fuel with
  | O => []
  | S fuel' =>
      match b with
      | [] => []
      | _ =>
          let line := take_line b in
          let total' := (total + Z.of_nat (length line))%Z in
          if (0 <? hint)%Z && (hint <? total')%Z then [line]
          else line :: take_lines fuel' hint total' (skipn (length line) b)
      end
  end.

(** *** Reading characters

    Each function returns the characters read, newlines translated, and the
    number of characters of the file they stand for. *)

(** At most [n] characters. *)
Fixpoint text_take (n : nat) (b : bytes) : bytes * nat :=
  match n with
  | O => ([], 0)
  | S n' =>
      match b with
      | [] => ([], 0)
      | c :: b' =>
          if Ascii.eqb c carriage_return then
            match b' with
            | d :: b'' =>
                if Ascii.eqb d newline then
                  let (out, k) := text_take n' b'' in (newline :: out, 2 + k)
                else
                  let (out, k) := text_take n' b' in (newline :: out, 1 + k)
            | [] => ([newline], 1)
            end
          else
            let (out, k) := text_take n' b' in (c :: out, 1 + k)
      end
  end.

(** The next line, of at most [limit] characters when there is a limit: it
    ends with the first line ending. *)
Fixpoint text_line (limit : option nat) (b : bytes) : bytes * nat :=
  match limit with
  | Some O => ([], 0)
  | _ =>
      match b with
      | [] => ([], 0)
      | c :: b' =>
          if Ascii.eqb c carriage_return then
            match b' with
            | d :: _ => if Ascii.eqb d newline then ([newline], 2)
                        else ([newline], 1)
            | [] => ([newline], 1)
            end
          else if Ascii.eqb c newline then ([newline], 1)
          else
            let (out, k) := text_line (option_map Nat.pred limit) b' in
            (c :: out, 1 + k)
      end
  end.

(** The lines, with the [hint] of [take_lines]. *)
Fixpoint text_lines (fuel : nat) (hint : Z) (total : Z) (b : bytes)
  : list bytes * nat :=
  match fuel with
  | O => ([], 0)
  | S fuel' =>
      match b with
      | [] => ([], 0)
      | _ =>
          let (line, k) := text_line None b in
          let total' := (total + Z.of_nat (length line))%Z in
          if (0 <? hint)%Z && (hint <? total')%Z then ([line], k)
          else
            let (lines, k') := text_lines fuel' hint total' (skipn k b) in
            (line :: lines, k + k')
      end
  end.

(** What reading [d] from a file gives: [d] itself from a binary file, and
    [d] with its line endings translated from a text file. *)
Definition as_read (binary : bool) (d : bytes) : bytes :=
  if binary then d else universal_newlines d.

(** What [read()] returns when the cursor is at the start: the whole
    content. *)
Definition content (tf : TempFile) : bytes := as_read (tf_binary tf) (buf tf).

(** *** Arguments

    An integer argument is converted to a C integer before the call does
    anything else; one that does not fit raises. *)

Definition PY_SSIZE_T_MAX : Z := 9223372036854775807.
Definition INT_MAX : Z := 2147483647.

Definition fits_ssize_t (n : Z) : bool :=
  (- PY_SSIZE_T_MAX - 1 <=? n)%Z && (n <=? PY_SSIZE_T_MAX)%Z.

Definition fits_int (n : Z) : bool :=
  (- INT_MAX - 1 <=? n)%Z && (n <=? INT_MAX)%Z.

(** The exceptions of the file object.  The text of a message differs
    between the binary and the text file; one text stands for both. *)
Definition closed_file : exn := ValueError "I/O operation on closed file.".
Definition not_readable : exn := UnsupportedOperation "not readable".
Definition not_writable : exn := UnsupportedOperation "not writable".
Definition too_large : exn :=
  OverflowError "Python int too large to convert to C ssize_t".
Definition no_readinto : exn :=
  AttributeError "'_io.TextIOWrapper' object has no attribute 'readinto'".
Definition invalid_argument : exn :=
  IOError (Some EINVAL) (strerror EINVAL) None.
Definition no_such_address : exn :=
  IOError (Some ENXIO) (strerror ENXIO) None.

(** The first check that fails, in the order the file object makes
    them. *)
Fixpoint first_error (checks : list (bool * exn)) : option exn :=
  match checks with
  | [] => None
  | (failed, e) :: checks' => if failed then Some e else first_error checks'
  end.

(** ** The regular expression of [__init__]

    [re.sub(r'^([rwa]+)(b?)$', r'\1+\2', mode)].  The pattern is anchored at
    the start, so it matches at most once: a maximal non-empty run of
    [r]/[w]/[a], an optional [b], and then the end of the string ([$] also
    matches just before a final newline).  The match is replaced by the run,
    a [+] and the optional [b]; a final newline outside the match stays. *)

Definition is_rwa (c : ascii) : bool :=
  Ascii.eqb c "r" || Ascii.eqb c "w" || Ascii.eqb c "a".

Fixpoint span_rwa (s : string) : string * string :=
  match s with
  | EmptyString => (EmptyString, EmptyString)
  | String c s' =>
      if is_rwa c then
        let (run, rest) := span_rwa s' in (String c run, rest)
      else (EmptyString, s)
  end.

Definition at_dollar (rest : string) : bool :=
  String.eqb rest "" || String.eqb rest (String newline "").

Definition updatable_mode (mode : string) : string :=
  let (run, rest) := span_rwa mode in
  if String.eqb run "" then mode
  else if at_dollar rest then run ++ "+" ++ rest
  else match rest with
       | String "b" rest' =>
           if at_dollar rest' then run ++ "+" ++ rest else mode
       | _ => mode
       end.

(** ** The object store

    What the module needs from [s3.Object(bucket, key)]: a download that
    either raises or delivers the object's content, and an upload that
    receives content and may raise.  [World] is the state of the remote
    store. *)

Class ObjectStore := {
  World : Type;
  s3_get : string -> string -> World -> (exn + bytes) * World;
  s3_put : string -> string -> bytes -> World -> option exn * World
}.

(** Log of the interaction with the collaborator: the two method calls (what
    a mock's [call_count] counts) and the content handed to the store. *)
Inductive Call :=
| CallDownload (bucket key : string)
| CallUpload (bucket key : string)
| StorePut (bucket key : string) (content : bytes).

Definition is_upload (c : Call) : bool :=
  match c with CallUpload _ _ => true | _ => false end.

Definition is_download (c : Call) : bool :=
  match c with CallDownload _ _ => true | _ => false end.

Definition upload_count (cs : list Call) : nat := length (filter is_upload cs).
Definition download_count (cs : list Call) : nat := length (filter is_download cs).

(** Contents handed to the store, oldest first. *)
Fixpoint pushed (cs : list Call) : list bytes :=
  match cs with
  | [] => []
  | StorePut _ _ d :: cs' => d :: pushed cs'
  | _ :: cs' => pushed cs'
  end.

Section Model.

Context {store : ObjectStore}.

(** ** State and the monad *)

Record State := mkState {
  tempfile : TempFile;
  world : World;
  calls : list Call
}.

Definition M (A : Type) : Type := State -> (exn + A) * State.

Definition ret {A} (a : A) : M A := fun st => (inr a, st).

Definition raise {A} (e : exn) : M A := fun st => (inl e, st).

Definition bind {A B} (m : M A) (f : A -> M B) : M B :=
  fun st =>
    match m st with
    | (inl e, st') => (inl e, st')
    | (inr a, st') => f a st'
    end.

(** [try: body  except Exception as e: handler(e)] *)
Definition try_except {A} (body : M A) (handler : exn -> M A) : M A :=
  fun st =>
    match body st with
    | (inl e, st') => handler e st'
    | (inr a, st') => (inr a, st')
    end.

(** [try: body  finally: cleanup]: the cleanup always runs; an exception
    raised by the cleanup replaces the outcome of the body. *)
Definition try_finally {A} (body : M A) (cleanup : M unit) : M A :=
  fun st =>
    match body st with
    | (r, st') =>
        match cleanup st' with
        | (inl e, st'') => (inl e, st'')
        | (inr _, st'') => (r, st'')
        end
    end.

End Model.

Declare Scope monad_scope.
Delimit Scope monad_scope with monad.
Notation "x <- m ;; k" := (bind m (fun x => k))
  (at level 61, m at next level, right associativity) : monad_scope.
Notation "m ;; k" := (bind m (fun _ => k))
  (at level 61, right associativity) : monad_scope.
Open Scope monad_scope.

Section Stream.

Context {store : ObjectStore}.

Definition set_tempfile (tf : TempFile) (st : State) : State :=
  {| tempfile := tf; world := world st; calls := calls st |}.

Definition record (c : Call) (st : State) : State :=
  {| tempfile := tempfile st; world := world st; calls := calls st ++ [c] |}.

Definition set_world (w : World) (st : State) : State :=
  {| tempfile := tempfile st; world := w; calls := calls st |}.

(** ** Operations of the temporary file

    An operation on a closed file raises [ValueError]; reading a file that
    is not readable, or writing or truncating one that is not writable,
    raises [io.UnsupportedOperation]; an integer that does not fit its C type
    raises [OverflowError].  The order of these checks is that of the file
    object, and it differs between a binary and a text file: a text file
    looks at the closed flag first, a binary file that lacks a capability
    refuses [read], [readline], [readinto] and [write] whether it is closed
    or not. *)

Definition with_buf_pos (b : bytes) (p : nat) (tf : TempFile) : TempFile :=
  {| tf_binary := tf_binary tf;
     tf_readable := tf_readable tf; tf_writable := tf_writable tf;
     buf := b; pos := p; tf_closed := tf_closed tf |}.

(** Run [k] on the file unless one of the [checks] fails. *)
Definition checked {A} (checks : TempFile -> list (bool * exn))
  (k : TempFile -> State -> (exn + A) * State) : M A :=
  fun st =>
    match first_error (checks (tempfile st)) with
    | Some e => (inl e, st)
    | None => k (tempfile st) st
    end.

(** The cursor moves by [k]; the content stays. *)
Definition advance {A} (a : A) (k : nat) (tf : TempFile) (st : State)
  : (exn + A) * State :=
  (inr a, set_tempfile (with_buf_pos (buf tf) (pos tf + k) tf) st).

Definition write_checks (tf : TempFile) : list (bool * exn) :=
  if tf_binary tf then
    [(negb (tf_writable tf), not_writable); (tf_closed tf, closed_file)]
  else
    [(tf_closed tf, closed_file); (negb (tf_writable tf), not_writable)].

Definition tf_write (d : bytes) : M nat :=
  checked write_checks (fun tf st =>
    (inr (length d),
     set_tempfile (with_buf_pos (overwrite (buf tf) (pos tf) d)
                                (pos tf + length d) tf) st)).

Definition read_checks (n : Z) (tf : TempFile) : list (bool * exn) :=
  if tf_binary tf then
    [(negb (tf_readable tf), not_readable);
     (negb (fits_ssize_t n), too_large);
     ((n <? -1)%Z, ValueError "read length must be non-negative or -1");
     (tf_closed tf, closed_file)]
  else
    [(negb (fits_ssize_t n), too_large);
     (tf_closed tf, closed_file);
     (negb (tf_readable tf), not_readable)].

(** [read(n)]: everything that is left when [n] is negative, and at most
    [n] bytes, or characters, otherwise. *)
Definition tf_read (n : Z) : M bytes :=
  checked (read_checks n) (fun tf st =>
    let rest := skipn (pos tf) (buf tf) in
    if (n <? 0)%Z then advance (as_read (tf_binary tf) rest) (length rest) tf st
    else if tf_binary tf then
      let out := firstn (Z.to_nat n) rest in advance out (length out) tf st
    else
      let (out, k) := text_take (Z.to_nat n) rest in advance out k tf st).

(** A binary file that is not readable has the generic [readline] of
    [IOBase], which asks [read] for one byte at a time: with a limit of zero
    it asks for nothing and returns the empty line, closed or not. *)
Definition readline_checks (limit : Z) (tf : TempFile) : list (bool * exn) :=
  if tf_binary tf then
    [(negb (fits_ssize_t limit), too_large);
     (negb (tf_readable tf) && negb (limit =? 0)%Z, not_readable);
     (tf_readable tf && tf_closed tf, closed_file)]
  else
    [(negb (fits_ssize_t limit), too_large);
     (tf_closed tf, closed_file);
     (negb (tf_readable tf), not_readable)].

Definition tf_readline (limit : Z) : M bytes :=
  checked (readline_checks limit) (fun tf st =>
    let rest := skipn (pos tf) (buf tf) in
    if tf_binary tf then
      let line := take_line rest in
      let out :=
        if (limit <? 0)%Z then line else firstn (Z.to_nat limit) line in
      advance out (length out) tf st
    else
      let (out, k) :=
        text_line (if (limit <? 0)%Z then None else Some (Z.to_nat limit))
                  rest in
      advance out k tf st).

Definition readlines_checks (hint : Z) (tf : TempFile) : list (bool * exn) :=
  [(negb (fits_ssize_t hint), too_large);
   (tf_closed tf, closed_file);
   (negb (tf_readable tf), not_readable)].

Definition tf_readlines (hint : Z) : M (list bytes) :=
  checked (readlines_checks hint) (fun tf st =>
    let rest := skipn (pos tf) (buf tf) in
    if tf_binary tf then
      let out := take_lines (length rest) hint 0 rest in
      advance out (length (concat out)) tf st
    else
      let (out, k) := text_lines (length rest) hint 0 rest in
      advance out k tf st).

(** [readinto(b)] fills the caller's buffer [b] from its start with at most
    [len(b)] bytes and returns how many; the filled buffer is returned next
    to the count.  A text file has no such method. *)
Definition tf_readinto (b : bytes) : M (nat * bytes) :=
  checked (fun tf =>
             if tf_binary tf then
               [(negb (tf_readable tf), not_readable);
                (tf_closed tf, closed_file)]
             else [(true, no_readinto)])
    (fun tf st =>
       let got := firstn (length b) (skipn (pos tf) (buf tf)) in
       advance (length got, got ++ skipn (length got) b) (length got) tf st).

Definition SEEK_SET : Z := 0.
Definition SEEK_CUR : Z := 1.
Definition SEEK_END : Z := 2.
Definition SEEK_DATA : Z := 3.
Definition SEEK_HOLE : Z := 4.

Definition seek_checks (offset whence : Z) (tf : TempFile)
  : list (bool * exn) :=
  if tf_binary tf then
    [(negb (fits_int whence),
      OverflowError "Python int too large to convert to C int");
     (negb ((0 <=? whence)%Z && (whence <=? 4)%Z),
      ValueError "whence value unsupported");
     (tf_closed tf, closed_file);
     (negb (fits_ssize_t offset),
      ValueError "cannot fit 'int' into an offset-sized integer")]
  else
    [(negb (fits_int whence),
      OverflowError "Python int too large to convert to C int");
     (tf_closed tf, closed_file);
     (negb ((0 <=? whence)%Z && (whence <=? 2)%Z),
      ValueError "invalid whence");
     ((whence =? SEEK_CUR)%Z && negb (offset =? 0)%Z,
      UnsupportedOperation "can't do nonzero cur-relative seeks");
     ((whence =? SEEK_END)%Z && negb (offset =? 0)%Z,
      UnsupportedOperation "can't do nonzero end-relative seeks");
     ((offset <? 0)%Z, ValueError "negative seek position")].

(** Where a [seek] that passed its checks goes.  A binary file adds the
    offset to the start, the cursor or the end; for [SEEK_DATA] and
    [SEEK_HOLE] the whole content counts as data, followed by the hole at
    the end of the file, which is the answer of a file system that keeps no
    holes (one that does can report a hole where a [truncate] or a write past
    the end left zeros).  A text file takes the offset relative to the
    start for a position (a number [tell] returned), and moves to the cursor
    or to the end with a zero offset. *)
Definition seek_target (offset whence : Z) (tf : TempFile) : exn + Z :=
  let size := Z.of_nat (length (buf tf)) in
  if (whence =? SEEK_SET)%Z then inr offset
  else if (whence =? SEEK_CUR)%Z then inr (Z.of_nat (pos tf) + offset)%Z
  else if (whence =? SEEK_END)%Z then inr (size + offset)%Z
  else if (offset <? 0)%Z || (size <=? offset)%Z then inl no_such_address
  else if (whence =? SEEK_DATA)%Z then inr offset
  else inr size.

Definition tf_seek (offset whence : Z) : M Z :=
  checked (seek_checks offset whence) (fun tf st =>
    match seek_target offset whence tf with
    | inl e => (inl e, st)
    | inr target =>
        if (target <? 0)%Z then (inl invalid_argument, st)
        else
          (inr target,
           set_tempfile (with_buf_pos (buf tf) (Z.to_nat target) tf) st)
    end).

Definition tf_tell : M Z :=
  checked (fun tf => [(tf_closed tf, closed_file)])
          (fun tf st => (inr (Z.of_nat (pos tf)), st)).

Definition truncate_checks (size : Z) (tf : TempFile) : list (bool * exn) :=
  [(tf_closed tf, closed_file);
   (negb (tf_writable tf), not_writable);
   (negb (fits_ssize_t size), too_large);
   ((size <? 0)%Z, invalid_argument)].

Definition tf_truncate (size : Z) : M Z :=
  checked (truncate_checks size) (fun tf st =>
    (inr size,
     set_tempfile (with_buf_pos (resize (buf tf) (Z.to_nat size)) (pos tf) tf)
                  st)).

(** Closing releases the file; closing a closed file does nothing. *)
Definition tf_close : M unit :=
  fun st =>
    let tf := tempfile st in
    (inr tt,
     set_tempfile {| tf_binary := tf_binary tf;
                     tf_readable := tf_readable tf;
                     tf_writable := tf_writable tf;
                     buf := buf tf; pos := pos tf; tf_closed := true |} st).

Fixpoint write_each (lines : list bytes) : M unit :=
  match lines with
  | [] => ret tt
  | l :: ls => tf_write l ;; write_each ls
  end.

(** [writelines] checks that the file is open, then writes each line. *)
Definition tf_writelines (lines : list bytes) : M unit :=
  checked (fun tf => [(tf_closed tf, closed_file)]) (fun _ st => (inr tt, st)) ;;
  write_each lines.

(** ** The boto3 object

    [download_fileobj(stream)] obtains the content from the store and writes
    it to [stream] at its current position; [upload_fileobj(stream)] reads
    [stream] from its current position to the end and hands that to the
    store.  Both are logged when called. *)

Definition download_fileobj (bucket key : string) : M unit :=
  fun st =>
    let st1 := record (CallDownload bucket key) st in
    match s3_get bucket key (world st1) with
    | (inl e, w) => (inl e, set_world w st1)
    | (inr content, w) => (tf_write content ;; ret tt) (set_world w st1)
    end.

Definition upload_fileobj (bucket key : string) : M unit :=
  bind (fun st => (inr tt, record (CallUpload bucket key) st))
       (fun _ =>
          content <- tf_read (-1) ;;
          fun st =>
            let st1 := record (StorePut bucket key content) st in
            match s3_put bucket key content (world st1) with
            | (Some e, w) => (inl e, set_world w st1)
            | (None, w) => (inr tt, set_world w st1)
            end).

(** ** [s3errors]

    The context manager catches three exception classes raised by the
    wrapped block and re-raises each as an [IOError] carrying [path]; any
    other exception is not caught.  [s3errors_raise] is the exception that
    leaves the [with] block when the block raised [e]. *)

Definition s3errors_raise (path : string) (e : exn) : exn :=
  match e with
  | ClientError response =>
      let error_code := Error_Code response in
      let http_status :=
        match HTTPStatusCode response with Some s => s | None => 200%Z end in
      if match error_code with
         | Some c => String.eqb c "NoSuchBucket"
         | None => false
         end
      then IOError_errno EPERM path
      else if (http_status =? 404)%Z then IOError_errno ENOENT path
      else if (http_status =? 403)%Z then IOError_errno EACCES path
      else IOError_errno EOPNOTSUPP path
  | SSLError => IOError_errno EOPNOTSUPP path
  | EndpointConnectionError => IOError_errno ETIMEDOUT path
  | _ => e
  end.

Definition s3errors {A} (path : string) (body : M A) : M A :=
  try_except body (fun e => raise (s3errors_raise path e)).

(** ** [S3File]

    The attributes set once by [__init__]; [_tempfile] is the [tempfile]
    of the [State]. *)

Record S3File := mkS3File {
  bucket : string;
  key : string;
  mode : string;
  path : string
}.

Definition readable (self : S3File) : bool :=
  contains "r" (mode self) || contains "+" (mode self).

Definition writable (self : S3File) : bool :=
  contains "w" (mode self) || contains "a" (mode self)
  || contains "+" (mode self) || contains "x" (mode self).

Definition tell (self : S3File) : M Z := tf_tell.

Definition seek (self : S3File) (offset whence : Z) : M Z :=
  tf_seek offset whence ;; tell self.

Definition close (self : S3File) : M unit :=
  try_finally
    (if writable self then
       seek self 0 SEEK_SET ;;
       s3errors (path self) (upload_fileobj (bucket self) (key self))
     else ret tt)
    tf_close.

Definition closed (self : S3File) : M bool :=
  fun st => (inr (tf_closed (tempfile st)), st).

Definition read (self : S3File) (n : Z) : M bytes :=
  if negb (readable self) then raise (IOError_msg "not open for reading")
  else tf_read n.

Definition readinto (self : S3File) (b : bytes) : M (nat * bytes) :=
  tf_readinto b.

Definition readline (self : S3File) (limit : Z) : M bytes :=
  if negb (readable self) then raise (IOError_msg "not open for reading")
  else tf_readline limit.

Definition readlines (self : S3File) (hint : Z) : M (list bytes) :=
  if negb (readable self) then raise (IOError_msg "not open for reading")
  else tf_readlines hint.

Definition seekable (self : S3File) : bool := true.

Definition write (self : S3File) (b : bytes) : M nat :=
  if negb (writable self) then raise (IOError_msg "not open for writing")
  else tf_write b ;; ret (length b).

Definition writelines (self : S3File) (lines : list bytes) : M unit :=
  if negb (writable self) then raise (IOError_msg "not open for writing")
  else tf_writelines lines.

Definition truncate (self : S3File) (size : option Z) : M Z :=
  if negb (writable self) then raise (IOError_msg "not open for writing")
  else
    size <- match size with
            | None => tell self
            | Some s => ret s
            end ;;
    tf_truncate size ;;
    ret size.

(** The part of [__init__] that runs once [_tempfile] exists: the fetch
    selected by the mode under [s3errors], and on any exception [close()]
    followed by a re-raise. *)
Definition init_fetch (self : S3File) : M unit :=
  try_except
    (s3errors (path self)
       (if contains "a" (mode self) then
          download_fileobj (bucket self) (key self) ;;
          seek self 0 SEEK_END ;;
          ret tt
        else if negb (contains "a" (mode self))
                && negb (contains "w" (mode self))
                && negb (contains "x" (mode self)) then
          download_fileobj (bucket self) (key self) ;;
          seek self 0 SEEK_SET ;;
          ret tt
        else ret tt))
    (fun e => close self ;; raise e).

(** Outcome of [S3File(bucket, key, mode)]: [TemporaryFile] raised before
    any state existed; or the constructor raised afterwards; or it returned
    the new object. *)
Inductive Constructed :=
| NoBuffer (e : exn) (w : World) (cs : list Call)
| Failed (e : exn) (st : State)
| Opened (self : S3File) (st : State).

Definition S3File_init (bucket key mode : string) (w : World) (cs : list Call)
  : Constructed :=
  let self := {| bucket := bucket; key := key; mode := mode;
                 path := bucket ++ "/" ++ key |} in
  let updatable_mode := updatable_mode mode in
  match TemporaryFile updatable_mode with
  | inl e => NoBuffer e w cs
  | inr tf =>
      match init_fetch self {| tempfile := tf; world := w; calls := cs |} with
      | (inl e, st) => Failed e st
      | (inr _, st) => Opened self st
      end
  end.

(** [__exit__] *)
Definition exit (self : S3File) : M unit := close self.

End Stream.

Arguments State {store}.
Arguments M {store} A.

(** ** A scripted store

    The test double of [test/test_s3file.py], extended with scripted
    failures: the object's content (if it exists), and the exception each of
    the two calls raises (if any).  A successful upload replaces the
    content. *)

Record MockWorld := mkMock {
  remote : option bytes;
  get_raises : option exn;
  put_raises : option exn
}.

Definition not_found_response : Response :=
  {| Error_Code := Some "NoSuchKey"; HTTPStatusCode := Some 404%Z |}.

Definition forbidden_response : Response :=
  {| Error_Code := Some "AccessDenied"; HTTPStatusCode := Some 403%Z |}.

#[export] Instance mock_store : ObjectStore := {|
  World := MockWorld;
  s3_get := fun _ _ w =>
    match get_raises w with
    | Some e => (inl e, w)
    | None =>
        match remote w with
        | Some d => (inr d, w)
        | None => (inl (ClientError not_found_response), w)
        end
    end;
  s3_put := fun _ _ d w =>
    match put_raises w with
    | Some e => (Some e, w)
    | None => (None, {| remote := Some d; get_raises := get_raises w;
                        put_raises := put_raises w |})
    end
|}.

Definition GETTYSBURG : bytes :=
  list_ascii_of_string
    ("Four score and seven years ago our fathers brought forth on this continent, a new nation,"
     ++ String newline
     "conceived in Liberty, and dedicated to the proposition that all men are created equal."
     ++ String newline "").

Definition gettysburg_world : MockWorld :=
  {| remote := Some GETTYSBURG; get_raises := None; put_raises := None |}.

(** [make_s3file(mode)] of the tests, on a given store. *)
Definition make_s3file (mode : string) (w : MockWorld) : Constructed :=
  S3File_init "test-bucket" "path/to/gettysburg.txt" mode w [].

(** The store with no object and no scripted failure: a download answers
    404. *)
Definition empty_world : MockWorld :=
  {| remote := None; get_raises := None; put_raises := None |}.

(** The store with no object, whose uploads cannot reach the endpoint. *)
Definition unreachable_world : MockWorld :=
  {| remote := None; get_raises := None;
     put_raises := Some EndpointConnectionError |}.

(** The scratch file [TemporaryFile("a+")] returns. *)
Definition append_scratch : TempFile :=
  {| tf_binary := false; tf_readable := true; tf_writable := true;
     buf := []; pos := 0; tf_closed := false |}.

Definition foo : bytes := list_ascii_of_string " foo".
Definition bar : bytes := list_ascii_of_string " bar".

(** A passage with the line endings of three platforms. *)
Definition mixed_endings : bytes :=
  list_ascii_of_string
    ("one" ++ String carriage_return (String newline "two")
     ++ String carriage_return ("three" ++ String newline "")).

(** The object [make_s3file(mode)] builds. *)
Definition test_file (mode : string) : S3File :=
  {| bucket := "test-bucket"; key := "path/to/gettysburg.txt"; mode := mode;
     path := "test-bucket/path/to/gettysburg.txt" |}.

(** The state [make_s3file("r+")] leaves on [gettysburg_world]. *)
Definition update_state : State :=
  {| tempfile := {| tf_binary := false;
                    tf_readable := true; tf_writable := true;
                    buf := GETTYSBURG; pos := 0; tf_closed := false |};
     world := gettysburg_world;
     calls := [CallDownload "test-bucket" "path/to/gettysburg.txt"] |}.

(** The state [make_s3file("r+b")] leaves on [gettysburg_world]. *)
Definition binary_state : State :=
  {| tempfile := {| tf_binary := true;
                    tf_readable := true; tf_writable := true;
                    buf := GETTYSBURG; pos := 0; tf_closed := false |};
     world := gettysburg_world;
     calls := [CallDownload "test-bucket" "path/to/gettysburg.txt"] |}.

(** Run [m] on the stream a constructor returned; [None] when there is no
    stream. *)
Definition on_opened {store : ObjectStore} {A} (c : Constructed)
  (m : S3File -> M A) : option ((exn + A) * State) :=
  match c with
  | Opened self st => Some (m self st)
  | _ => None
  end.

Definition calls_after {store : ObjectStore} (c : Constructed) : list Call :=
  match c with
  | NoBuffer _ _ cs => cs
  | Failed _ st => calls st
  | Opened _ st => calls st
  end.

(** [st] is a state of the stream [self]: the scratch file is of the kind
    and has the capabilities [TemporaryFile] gave it for the mode of
    [self]. *)
Definition stream_state {store : ObjectStore} (self : S3File) (st : State)
  : Prop :=
  exists tf0,
    TemporaryFile (updatable_mode (mode self)) = inr tf0
    /\ tf_binary (tempfile st) = tf_binary tf0
    /\ tf_readable (tempfile st) = tf_readable tf0
    /\ tf_writable (tempfile st) = tf_writable tf0.

(** [st] is a state of the stream [self] while it is open: it has not been
    closed. *)
Definition open_stream {store : ObjectStore} (self : S3File) (st : State)
  : Prop :=
  stream_state self st /\ tf_closed (tempfile st) = false.


(** ** The mode forms of the specification

    A mode token is recognized when it has exactly one of [r], [w], [a],
    [x], at most one [+], at most one binary/text marker ([b] or [t]) and no
    other character. *)
Definition recognized_mode (mode : string) : bool :=
  all_in "rwax+bt" mode
  && Nat.eqb (occurrences "r" mode + occurrences "w" mode
              + occurrences "a" mode + occurrences "x" mode) 1
  && Nat.leb (occurrences "+" mode) 1
  && Nat.leb (occurrences "b" mode + occurrences "t" mode) 1.

(** Whether [__init__] fetches: the two branches that call
    [download_fileobj]. *)
Definition fetches (mode : string) : bool :=
  contains "a" mode
  || (negb (contains "a" mode) && negb (contains "w" mode)
      && negb (contains "x" mode)).

(** ** Scoped use

    [__enter__] returns the stream and [__exit__] closes it and returns
    [None], so [with S3File(...) as f: body] runs the body, then [close()],
    whatever the body did; an exception of the body leaves the block unless
    [close()] raises one of its own. *)

Definition enter (self : S3File) : S3File := self.

Definition with_stream {store : ObjectStore} {A} (self : S3File)
  (body : S3File -> M A) : M A :=
  try_finally (body (enter self)) (exit self).

(** What stays fixed while a stream is used: the store, the log of calls
    and what the scratch file can do, closed or not. *)
Definition same_store {store : ObjectStore} (st st' : State) : Prop :=
  world st' = world st
  /\ calls st' = calls st
  /\ tf_readable (tempfile st') = tf_readable (tempfile st)
  /\ tf_writable (tempfile st') = tf_writable (tempfile st)
  /\ tf_closed (tempfile st') = tf_closed (tempfile st).

(** The exception classes of the store client that [s3errors] catches. *)
Definition store_specific (e : exn) : bool :=
  match e with
  | ClientError _ | SSLError | EndpointConnectionError => true
  | _ => false
  end.

(** ** [open_url]

    [urlparse] and the [os] functions are the standard library's.
    [os.path.dirname] is a function of the path alone; the others are what
    [LocalFS] provides: the parse of a URL, and a local filesystem of state
    [FS] with [os.path.realpath], [os.path.exists], [os.makedirs] and the
    built-in [open]. *)

Record ParseResult := mkParseResult {
  scheme : string;
  netloc : string;
  url_path : string
}.

Class LocalFS := {
  FS : Type;
  Handle : Type;
  urlparse : string -> ParseResult;
  realpath : FS -> string -> string;
  path_exists : FS -> string -> bool;
  makedirs : string -> FS -> option exn * FS;
  open_file : string -> string -> FS -> (exn + Handle) * FS
}.

(** [s.lstrip(c)] for a one-character [c]. *)
Fixpoint lstrip (c : ascii) (s : string) : string :=
  match s with
  | EmptyString => EmptyString
  | String d s' => if Ascii.eqb d c then lstrip c s' else s
  end.

(** [s.rstrip(c)] for a one-character [c]. *)
Fixpoint rstrip (c : ascii) (s : string) : string :=
  match s with
  | EmptyString => EmptyString
  | String d s' =>
      let r := rstrip c s' in
      if String.eqb r "" && Ascii.eqb d c then EmptyString else String d r
  end.

(** [p[:p.rfind('/') + 1]]: up to and including the last slash. *)
Fixpoint through_last_slash (p : string) : string :=
  match p with
  | EmptyString => EmptyString
  | String c p' =>
      if contains "/" p then String c (through_last_slash p')
      else EmptyString
  end.

(** [posixpath.dirname]: the head of the path, without its trailing
    slashes unless it consists of slashes only. *)
Definition dirname (p : string) : string :=
  let head := through_last_slash p in
  if negb (String.eqb head "") && negb (all_in "/" head) then rstrip "/" head
  else head.

(** What [open_url] returns or raises, with the local filesystem it
    leaves: an [S3File] construction, or a local file. *)
Inductive Opening {store : ObjectStore} {fs : LocalFS} :=
| Remote (c : Constructed) (f : FS)
| Local (r : exn + Handle) (f : FS) (w : World) (cs : list Call).

Definition open_url {store : ObjectStore} {fs : LocalFS}
  (url mode : string) (f : FS) (w : World) (cs : list Call) : Opening :=
  let parsed_url := urlparse url in
  if String.eqb (scheme parsed_url) "s3" then
    Remote (S3File_init (netloc parsed_url)
                        (lstrip "/" (url_path parsed_url)) mode w cs) f
  else
    let dir_path := dirname (realpath f (url_path parsed_url)) in
    if negb (path_exists f dir_path) then
      match makedirs dir_path f with
      | (Some e, f') => Local (inl e) f' w cs
      | (None, f') =>
          let (r, f'') := open_file (url_path parsed_url) mode f' in
          Local r f'' w cs
      end
    else
      let (r, f') := open_file (url_path parsed_url) mode f in
      Local r f' w cs.

(** A local filesystem for examples, with the root as working directory and
    no symbolic links: a URL is [s3://test-bucket/...] when it starts so,
    and a plain path otherwise; the directories that exist are a list of
    names. *)
Definition example_parse (url : string) : ParseResult :=
  if String.prefix "s3://test-bucket" url then
    {| scheme := "s3"; netloc := "test-bucket";
       url_path := String.substring 16 (String.length url - 16) url |}
  else {| scheme := ""; netloc := ""; url_path := url |}.

#[export] Instance example_fs : LocalFS := {|
  FS := list string;
  Handle := string;
  urlparse := example_parse;
  realpath := fun _ p => if String.prefix "/" p then p else ("/" ++ p)%string;
  path_exists := fun f p => existsb (String.eqb p) f;
  makedirs := fun p f => (None, p :: f);
  open_file := fun p _ f => (inr p, f)
|}.

(** The state [make_s3file("x")] leaves once [foo] has been written: a
    scratch file that cannot be read. *)
Definition exclusive_state : State :=
  {| tempfile := {| tf_binary := false;
                    tf_readable := false; tf_writable := true;
                    buf := foo; pos := 4; tf_closed := false |};
     world := gettysburg_world;
     calls := [] |}.

(** The store whose object has the line endings of three platforms. *)
Definition mixed_world : MockWorld :=
  {| remote := Some mixed_endings; get_raises := None; put_raises := None |}.

(** [update_state] and [binary_state], once closed. *)
Definition closed_state : State :=
  {| tempfile := {| tf_binary := false;
                    tf_readable := true; tf_writable := true;
                    buf := GETTYSBURG; pos := 0; tf_closed := true |};
     world := gettysburg_world; calls := [] |}.

Definition closed_binary_state : State :=
  {| tempfile := {| tf_binary := true;
                    tf_readable := true; tf_writable := true;
                    buf := GETTYSBURG; pos := 0; tf_closed := true |};
     world := gettysburg_world; calls := [] |}.

(** A text-mode stream whose buffer has the line endings of three
    platforms, the cursor in the middle. *)
Definition mixed_state : State :=
  {| tempfile := {| tf_binary := false;
                    tf_readable := true; tf_writable := true;
                    buf := mixed_endings; pos := 7; tf_closed := false |};
     world := empty_world; calls := [] |}.

(** * Properties *)

(** ** Mode strings *)

Lemma contains_occurrences (c : ascii) (s : string) :
  contains c s = negb (Nat.eqb (occurrences c s) 0).
Proof.
  induction s as [|d s IH]; simpl; [reflexivity|].
  destruct (Ascii.eqb c d); simpl; [reflexivity | exact IH].
Qed.

Lemma contains_append (c : ascii) (s t : string) :
  contains c (s ++ t) = contains c s || contains c t.
Proof.
  induction s as [|d s IH]; simpl; [reflexivity|].
  rewrite IH. apply orb_assoc.
Qed.

Lemma length_append (s t : string) :
  String.length (s ++ t) = String.length s + String.length t.
Proof.
  induction s as [|d s IH]; simpl; [reflexivity|].
  rewrite IH. reflexivity.
Qed.

Lemma occurrences_append (c : ascii) (s t : string) :
  occurrences c (s ++ t) = occurrences c s + occurrences c t.
Proof.
  induction s as [|d s IH]; simpl; [reflexivity|].
  rewrite IH. lia.
Qed.

Lemma all_in_append (al s t : string) :
  all_in al (s ++ t) = all_in al s && all_in al t.
Proof.
  induction s as [|d s IH]; simpl; [reflexivity|].
  rewrite IH. apply andb_assoc.
Qed.

Lemma all_in_occurrences (al s : string) (c : ascii) :
  all_in al s = true -> contains c al = false -> occurrences c s = 0.
Proof.
  intros Hall Hc. induction s as [|d s IH]; simpl; [reflexivity|].
  simpl in Hall. apply andb_true_iff in Hall as [Hd Hs].
  destruct (Ascii.eqb_spec c d) as [->|_].
  - congruence.
  - simpl. auto.
Qed.

(** Without repeated characters, a character occurs once or not at all. *)
Lemma occurrences_no_duplicates (c : ascii) (s : string) :
  has_duplicates s = false -> occurrences c s = b2n (contains c s).
Proof.
  induction s as [|d s IH]; simpl; [reflexivity|].
  intros H. apply orb_false_iff in H as [Hd Hs].
  specialize (IH Hs).
  destruct (Ascii.eqb_spec c d) as [->|_]; simpl.
  - rewrite IH, Hd. reflexivity.
  - exact IH.
Qed.

Lemma no_duplicates_occurrences (s : string) :
  (forall c, occurrences c s <= 1) -> has_duplicates s = false.
Proof.
  induction s as [|d s IH]; simpl; [reflexivity|].
  intros H. apply orb_false_iff. split.
  - specialize (H d). rewrite Ascii.eqb_refl in H.
    rewrite contains_occurrences.
    destruct (occurrences d s); [reflexivity | lia].
  - apply IH. intros c. specialize (H c).
    destruct (Ascii.eqb c d); lia.
Qed.

Lemma alphabet_same (c : ascii) :
  contains c "axrwb+t" = contains c "rwax+bt".
Proof.
  simpl.
  destruct (Ascii.eqb c "a"), (Ascii.eqb c "x"), (Ascii.eqb c "r"),
    (Ascii.eqb c "w"), (Ascii.eqb c "b"), (Ascii.eqb c "+"),
    (Ascii.eqb c "t"); reflexivity.
Qed.

Lemma all_in_alphabets (s : string) :
  all_in "axrwb+t" s = all_in "rwax+bt" s.
Proof.
  induction s as [|d s IH]; [reflexivity|].
  cbn [all_in]. rewrite IH, alphabet_same. reflexivity.
Qed.

(** A character outside the alphabet does not occur; one inside it is one
    of the seven. *)
Lemma alphabet_cases (c : ascii) :
  contains c "rwax+bt" = true ->
  c = "r"%char \/ c = "w"%char \/ c = "a"%char \/ c = "x"%char
  \/ c = "+"%char \/ c = "b"%char \/ c = "t"%char.
Proof.
  simpl.
  destruct (Ascii.eqb_spec c "r"); [auto|].
  destruct (Ascii.eqb_spec c "w"); [auto|].
  destruct (Ascii.eqb_spec c "a"); [auto|].
  destruct (Ascii.eqb_spec c "x"); [auto 6|].
  destruct (Ascii.eqb_spec c "+"); [auto 6|].
  destruct (Ascii.eqb_spec c "b"); [auto 7|].
  destruct (Ascii.eqb_spec c "t"); [auto 8|].
  discriminate.
Qed.

(** [io.open] accepts exactly the recognized mode forms. *)
Lemma io_open_mode_recognized (s : string) :
  recognized_mode s = true <-> exists tf, io_open_mode s = inr tf.
Proof.
  unfold recognized_mode, io_open_mode. rewrite all_in_alphabets.
  split.
  - intros H.
    apply andb_true_iff in H as [H Hbt].
    apply andb_true_iff in H as [H Hplus].
    apply andb_true_iff in H as [Hall Hone].
    apply Nat.eqb_eq in Hone. apply Nat.leb_le in Hplus, Hbt.
    assert (Hnd : has_duplicates s = false).
    { apply no_duplicates_occurrences. intros c.
      destruct (contains c "rwax+bt") eqn:Hc.
      - apply alphabet_cases in Hc.
        destruct Hc as [->|[->|[->|[->|[->|[->| ->]]]]]]; lia.
      - rewrite (all_in_occurrences _ _ _ Hall Hc). lia. }
    rewrite Hall, Hnd. cbn [negb orb].
    pose proof (fun c => occurrences_no_duplicates c s Hnd) as E.
    rewrite !E in Hone. rewrite E in Hplus. rewrite !E in Hbt. clear E.
    destruct (contains "x" s), (contains "r" s), (contains "w" s),
      (contains "a" s), (contains "t" s), (contains "b" s);
      cbn in Hone, Hbt |- *; try lia; eexists; reflexivity.
  - intros [tf H].
    destruct (all_in "rwax+bt" s) eqn:Hall; [|discriminate].
    destruct (has_duplicates s) eqn:Hnd; [discriminate|].
    cbn [negb orb] in H.
    pose proof (fun c => occurrences_no_duplicates c s Hnd) as E.
    rewrite !E. clear E.
    destruct (contains "x" s), (contains "r" s), (contains "w" s),
      (contains "a" s), (contains "t" s), (contains "b" s),
      (contains "+" s); cbn in H |- *; try discriminate; reflexivity.
Qed.

(** ** The mode handed to [TemporaryFile] *)

Lemma span_rwa_spec (s run rest : string) :
  span_rwa s = (run, rest) -> s = (run ++ rest)%string /\ all_in "rwa" run = true.
Proof.
  revert run rest. induction s as [|c s IH]; simpl; intros run rest H.
  - inversion H. split; reflexivity.
  - destruct (is_rwa c) eqn:Hc.
    + destruct (span_rwa s) as [run' rest'] eqn:E.
      inversion H; subst run rest. destruct (IH _ _ eq_refl) as [Hs Hrun].
      split; [simpl; rewrite <- Hs; reflexivity|].
      simpl. rewrite Hrun, andb_true_r. unfold is_rwa in Hc.
      destruct (Ascii.eqb c "r"), (Ascii.eqb c "w"), (Ascii.eqb c "a");
        try reflexivity; discriminate.
    + inversion H. split; reflexivity.
Qed.

Lemma at_dollar_cases (rest : string) :
  at_dollar rest = true -> rest = "" \/ rest = String newline "".
Proof.
  unfold at_dollar. intros H. apply orb_true_iff in H as [H|H];
    apply String.eqb_eq in H; auto.
Qed.

(** What the substitution does: nothing, or a [+] inserted between the run
    of [r]/[w]/[a] and a tail that is empty, [b], a newline or [b] and a
    newline. *)
Lemma updatable_mode_cases (m : string) :
  updatable_mode m = m
  \/ exists run rest,
       m = (run ++ rest)%string /\ updatable_mode m = (run ++ "+" ++ rest)%string
       /\ all_in "rwa" run = true
       /\ (rest = "" \/ rest = String newline "" \/ rest = "b"
           \/ rest = String "b" (String newline "")).
Proof.
  unfold updatable_mode.
  destruct (span_rwa m) as [run rest] eqn:Hspan.
  destruct (span_rwa_spec _ _ _ Hspan) as [Hm Hrun].
  destruct (String.eqb run ""); [left; reflexivity|].
  destruct (at_dollar rest) eqn:Hd.
  - right. exists run, rest. apply at_dollar_cases in Hd.
    repeat split; try assumption. destruct Hd; auto.
  - destruct rest as [|c rest']; [left; reflexivity|].
    destruct (Ascii.eqb_spec c "b") as [->|Hc].
    + destruct (at_dollar rest') eqn:Hd'.
      * right. exists run, (String "b" rest'). apply at_dollar_cases in Hd'.
        repeat split; try assumption. destruct Hd' as [->| ->]; auto.
      * left. reflexivity.
    + left. destruct c as [[] [] [] [] [] [] [] []]; try reflexivity.
      exfalso. apply Hc. reflexivity.
Qed.

Lemma contains_updatable_mode (c : ascii) (m : string) :
  contains c (updatable_mode m)
  = contains c m || (Ascii.eqb c "+" && negb (String.eqb (updatable_mode m) m)).
Proof.
  destruct (updatable_mode_cases m) as [E | (run & rest & Hm & E & Hrun & _)].
  - rewrite E, String.eqb_refl, andb_false_r, orb_false_r. reflexivity.
  - rewrite E. subst m. rewrite !contains_append. simpl.
    assert (Hne : String.eqb (run ++ String "+" rest)%string (run ++ rest)%string = false).
    { apply String.eqb_neq. intros Heq.
      apply (f_equal String.length) in Heq.
      rewrite !length_append in Heq. simpl in Heq. lia. }
    rewrite Hne. cbn [negb]. rewrite andb_true_r, orb_false_r.
    destruct (contains c run), (Ascii.eqb c "+"), (contains c rest);
      reflexivity.
Qed.

(** The substitution neither rescues an unrecognized mode nor spoils a
    recognized one. *)
Lemma recognized_updatable_mode (m : string) :
  recognized_mode (updatable_mode m) = recognized_mode m.
Proof.
  destruct (updatable_mode_cases m) as [E | (run & rest & Hm & E & Hrun & Hrest)].
  - rewrite E. reflexivity.
  - rewrite E. subst m. unfold recognized_mode.
    rewrite !all_in_append, !occurrences_append.
    assert (Hplus : occurrences "+" run = 0)
      by (apply (all_in_occurrences "rwa"); [assumption | reflexivity]).
    rewrite Hplus.
    destruct Hrest as [->|[->|[->| ->]]]; cbn;
      rewrite ?andb_false_r, ?andb_true_r, ?Nat.add_0_r; reflexivity.
Qed.

Lemma TemporaryFile_recognized (m : string) :
  recognized_mode m = true
  <-> exists tf, TemporaryFile (updatable_mode m) = inr tf.
Proof.
  unfold TemporaryFile. rewrite <- io_open_mode_recognized.
  rewrite recognized_updatable_mode. reflexivity.
Qed.

Lemma TemporaryFile_raises (m : string) (e : exn) :
  TemporaryFile m = inl e -> exists msg, e = ValueError msg.
Proof.
  unfold TemporaryFile, io_open_mode.
  repeat match goal with
         | |- context [if ?b then _ else _] => destruct b
         end; intros H; inversion H; eexists; reflexivity.
Qed.

(** The file [TemporaryFile] returns is empty, open, and can do what the
    characters of its mode say. *)
Lemma TemporaryFile_fresh (m : string) (tf : TempFile) :
  TemporaryFile m = inr tf ->
  buf tf = [] /\ pos tf = 0 /\ tf_closed tf = false
  /\ tf_readable tf = contains "r" m || contains "+" m
  /\ tf_writable tf = contains "w" m || contains "a" m || contains "x" m
                      || contains "+" m
  /\ tf_binary tf = contains "b" m.
Proof.
  unfold TemporaryFile, io_open_mode.
  repeat match goal with
         | |- context [if ?b then _ else _] => destruct b
         end; intros H; inversion H; cbn; repeat split; reflexivity.
Qed.

(** The scratch file of a stream: empty, open, and at least as capable as
    the stream. *)
Lemma scratch_file (m : string) (tf0 : TempFile) :
  TemporaryFile (updatable_mode m) = inr tf0 ->
  buf tf0 = [] /\ pos tf0 = 0 /\ tf_closed tf0 = false
  /\ (contains "r" m || contains "+" m = true -> tf_readable tf0 = true)
  /\ (contains "w" m || contains "a" m || contains "+" m || contains "x" m
      = true -> tf_writable tf0 = true).
Proof.
  intros H.
  destruct (TemporaryFile_fresh _ _ H) as (Hb & Hp & Hc & Hr & Hw & _).
  rewrite Hr, Hw, !contains_updatable_mode. cbn.
  rewrite !orb_false_r.
  repeat split; try assumption.
  - intros E. destruct (contains "r" m), (contains "+" m);
      try discriminate; reflexivity.
  - intros E. destruct (contains "w" m), (contains "a" m), (contains "+" m),
      (contains "x" m); try discriminate; reflexivity.
Qed.

(** The scratch file of a stream is a binary file exactly when the mode has
    a [b]. *)
Lemma scratch_binary (m : string) (tf0 : TempFile) :
  TemporaryFile (updatable_mode m) = inr tf0 ->
  tf_binary tf0 = contains "b" m.
Proof.
  intros H.
  destruct (TemporaryFile_fresh _ _ H) as (_ & _ & _ & _ & _ & Hb).
  rewrite Hb, contains_updatable_mode. cbn. apply orb_false_r.
Qed.

(** ** Running the stream operations *)

Arguments overwrite : simpl never.
Arguments resize : simpl never.
Arguments universal_newlines : simpl never.
Arguments fits_ssize_t : simpl never.
Arguments fits_int : simpl never.

Lemma fits_ssize_t_spec (n : Z) :
  fits_ssize_t n = true
  <-> (- PY_SSIZE_T_MAX - 1 <= n <= PY_SSIZE_T_MAX)%Z.
Proof.
  unfold fits_ssize_t. rewrite andb_true_iff, !Z.leb_le. reflexivity.
Qed.

Lemma fits_ssize_t_nat (n : nat) :
  (Z.of_nat n <= PY_SSIZE_T_MAX)%Z -> fits_ssize_t (Z.of_nat n) = true.
Proof.
  intros H. apply fits_ssize_t_spec. unfold PY_SSIZE_T_MAX in *. lia.
Qed.

Lemma fits_ssize_t_0 : fits_ssize_t 0 = true.
Proof. reflexivity. Qed.

Lemma fits_ssize_t_m1 : fits_ssize_t (-1) = true.
Proof. reflexivity. Qed.

Lemma fits_int_0 : fits_int 0 = true.
Proof. reflexivity. Qed.

Lemma fits_int_1 : fits_int 1 = true.
Proof. reflexivity. Qed.

Lemma fits_int_2 : fits_int 2 = true.
Proof. reflexivity. Qed.

Ltac fits :=
  rewrite ?fits_ssize_t_0, ?fits_ssize_t_m1, ?fits_int_0, ?fits_int_1,
    ?fits_int_2.

Ltac unfold_ops :=
  unfold init_fetch, close, read, readinto, readline, readlines, write,
    writelines, truncate, seek, tell, s3errors, upload_fileobj,
    download_fileobj, tf_writelines, tf_seek, tf_tell, tf_read, tf_readinto,
    tf_readline, tf_readlines, tf_write, tf_truncate, tf_close, checked,
    advance, write_checks, read_checks, readline_checks, readlines_checks,
    seek_checks, seek_target, truncate_checks,
    try_finally, try_except, bind, ret, raise, record, set_world,
    set_tempfile, with_buf_pos, SEEK_SET, SEEK_CUR, SEEK_END in *.

Ltac run_ops := unfold_ops; cbn; fits; cbn.

Ltac cbn_fields :=
  cbn [tempfile world calls bucket key mode path buf pos tf_binary
       tf_readable tf_writable tf_closed] in *.

Ltac count_calls :=
  cbn; unfold upload_count, download_count;
  rewrite ?filter_app, ?length_app, <- ?app_assoc; cbn;
  repeat split; try reflexivity; try lia.

(** ** Content *)

Lemma overwrite_empty (d : bytes) : overwrite [] 0 d = d.
Proof.
  unfold overwrite. destruct d as [|c d]; [reflexivity|].
  cbn. rewrite app_nil_r. reflexivity.
Qed.

Lemma overwrite_at_end (b d : bytes) : overwrite b (length b) d = b ++ d.
Proof.
  unfold overwrite. destruct d as [|c d]; [symmetry; apply app_nil_r|].
  rewrite firstn_all, Nat.sub_diag. cbn [repeat app].
  rewrite skipn_all2 by lia. rewrite app_nil_r. reflexivity.
Qed.

Lemma overwrite_read_back (b d : bytes) (p : nat) :
  firstn (length d) (skipn p (overwrite b p d)) = d
  /\ skipn (p + length d) (overwrite b p d) = skipn (p + length d) b
  /\ (p <= length b -> firstn p (overwrite b p d) = firstn p b).
Proof.
  unfold overwrite. destruct d as [|c d].
  { cbn. rewrite Nat.add_0_r. auto. }
  remember (c :: d) as d' eqn:Hd. clear Hd c d.
  remember (firstn p b ++ repeat nul (p - length b)) as A eqn:HA.
  remember (skipn (p + length d') b) as C eqn:HC.
  assert (Hp : length A = p).
  { subst A. rewrite length_app, length_firstn, repeat_length. lia. }
  assert (E : firstn p b ++ repeat nul (p - length b) ++ d' ++ C
              = A ++ d' ++ C) by (subst A; rewrite <- app_assoc; reflexivity).
  rewrite E.
  assert (E1 : skipn p (A ++ d' ++ C) = d' ++ C).
  { rewrite skipn_app, Hp, Nat.sub_diag, skipn_all2 by lia. reflexivity. }
  split; [|split].
  - rewrite E1, firstn_app, Nat.sub_diag, firstn_all. cbn. apply app_nil_r.
  - rewrite Nat.add_comm, <- skipn_skipn, E1.
    rewrite skipn_app, Nat.sub_diag, skipn_all. reflexivity.
  - intros Hle. rewrite firstn_app, Hp, Nat.sub_diag. cbn.
    rewrite app_nil_r. subst A. replace (p - length b) with 0 by lia.
    cbn. rewrite app_nil_r, firstn_firstn, Nat.min_id. reflexivity.
Qed.

Lemma resize_length (b : bytes) (n : nat) : length (resize b n) = n.
Proof.
  unfold resize. rewrite length_app, length_firstn, repeat_length. lia.
Qed.


(** Content without carriage returns reads as it is. *)
Lemma universal_newlines_plain (b : bytes) :
  plain_newlines b = true -> universal_newlines b = b.
Proof.
  unfold plain_newlines. intros H. apply negb_true_iff in H.
  induction b as [|c b IH]; [reflexivity|].
  cbn [existsb] in H. apply orb_false_iff in H as [Hc Hb].
  rewrite Ascii.eqb_sym in Hc.
  change (universal_newlines (c :: b)) with
    (if Ascii.eqb c carriage_return then
       match b with
       | d :: b'' =>
           if Ascii.eqb d newline then newline :: universal_newlines b''
           else newline :: universal_newlines b
       | [] => [newline]
       end
     else c :: universal_newlines b).
  rewrite Hc, (IH Hb). reflexivity.
Qed.

Lemma as_read_plain (binary : bool) (b : bytes) :
  binary = true \/ plain_newlines b = true -> as_read binary b = b.
Proof.
  intros [-> | H]; [reflexivity|].
  destruct binary; [reflexivity|]. apply universal_newlines_plain. exact H.
Qed.


Lemma content_empty (tf : TempFile) : buf tf = [] -> content tf = [].
Proof.
  intros H. unfold content. rewrite H. destruct (tf_binary tf); reflexivity.
Qed.

Lemma pushed_app (cs cs' : list Call) :
  pushed (cs ++ cs') = pushed cs ++ pushed cs'.
Proof.
  induction cs as [|c cs IH]; [reflexivity|].
  destruct c; cbn; rewrite IH; reflexivity.
Qed.

Section Running.

Context {store : ObjectStore}.

Lemma bind_ok {A B} (m : M A) (f : A -> M B) (st st' : State) (a : A) :
  m st = (inr a, st') -> bind m f st = f a st'.
Proof.
  intros H. unfold bind. rewrite H. reflexivity.
Qed.

Lemma bind_raises {A B} (m : M A) (f : A -> M B) (st st' : State) (e : exn) :
  m st = (inl e, st') -> bind m f st = (inl e, st').
Proof.
  intros H. unfold bind. rewrite H. reflexivity.
Qed.

(** *** The scratch file's operations on an open file *)

(** [seek(0)] and [seek(0, SEEK_END)] succeed on an open file of either
    kind. *)
Lemma seek_start (self : S3File) (st : State) :
  tf_closed (tempfile st) = false ->
  seek self 0 SEEK_SET st
  = (inr 0%Z, set_tempfile (with_buf_pos (buf (tempfile st)) 0 (tempfile st)) st).
Proof.
  destruct st as [[bi r w b p c] wd cs]. cbn. intros ->.
  destruct bi; run_ops; reflexivity.
Qed.

Lemma seek_end (self : S3File) (st : State) :
  tf_closed (tempfile st) = false ->
  seek self 0 SEEK_END st
  = (inr (Z.of_nat (length (buf (tempfile st)))),
     set_tempfile (with_buf_pos (buf (tempfile st))
                                (length (buf (tempfile st))) (tempfile st)) st).
Proof.
  destruct st as [[bi r w b p c] wd cs]. cbn. intros ->.
  assert (E1 : (Z.of_nat (length b) + 0 <? 0)%Z = false)
    by (apply Z.ltb_ge; lia).
  assert (E2 : Z.to_nat (Z.of_nat (length b) + 0) = length b) by lia.
  destruct bi; run_ops; rewrite E1; cbn; rewrite E2; reflexivity.
Qed.

(** [read()] on an open readable file returns what is left, as the kind of
    the file reads it, and leaves the cursor past it. *)
Lemma tf_read_all (st : State) :
  tf_closed (tempfile st) = false ->
  tf_readable (tempfile st) = true ->
  let rest := skipn (pos (tempfile st)) (buf (tempfile st)) in
  tf_read (-1) st
  = (inr (as_read (tf_binary (tempfile st)) rest),
     set_tempfile (with_buf_pos (buf (tempfile st))
                                (pos (tempfile st) + length rest)
                                (tempfile st)) st).
Proof.
  destruct st as [[bi r w b p c] wd cs]. cbn. intros -> ->.
  destruct bi; run_ops; reflexivity.
Qed.

(** A write on an open writable file goes to the cursor and moves it past
    what was written. *)
Lemma tf_write_ok (Y : bytes) (st : State) :
  tf_closed (tempfile st) = false ->
  tf_writable (tempfile st) = true ->
  tf_write Y st
  = (inr (length Y),
     set_tempfile (with_buf_pos (overwrite (buf (tempfile st))
                                           (pos (tempfile st)) Y)
                                (pos (tempfile st) + length Y)
                                (tempfile st)) st).
Proof.
  destruct st as [[bi r w b p c] wd cs]. cbn. intros -> ->.
  destruct bi; run_ops; reflexivity.
Qed.


(** A write on a file that is not writable is refused, whether the file is
    open or not, unless it is a closed text file. *)
Lemma tf_write_refused (Y : bytes) (st : State) :
  tf_closed (tempfile st) = false ->
  tf_writable (tempfile st) = false ->
  tf_write Y st = (inl (UnsupportedOperation "not writable"), st).
Proof.
  destruct st as [[bi r w b p c] wd cs]. cbn. intros -> ->.
  destruct bi; run_ops; reflexivity.
Qed.

(** *** [close] *)

(** Closing a stream that is not writable only releases the scratch file. *)
Lemma close_read_only (self : S3File) (st : State) :
  writable self = false ->
  exists st',
    close self st = (inr tt, st')
    /\ calls st' = calls st /\ world st' = world st
    /\ tf_closed (tempfile st') = true
    /\ buf (tempfile st') = buf (tempfile st).
Proof.
  intros Hw. unfold_ops. rewrite Hw. eexists. split; [reflexivity|].
  cbn. auto.
Qed.

(** Closing again: nothing is pushed and nothing changes; a writable stream
    fails in its [seek] on the closed scratch file. *)
Lemma close_closed (self : S3File) (st : State) :
  tf_closed (tempfile st) = true ->
  close self st
  = (if writable self then inl closed_file else inr tt, st).
Proof.
  destruct st as [[bi r w b p c] wd cs]. cbn. intros ->.
  destruct (writable self) eqn:Hw; unfold_ops; rewrite Hw;
    [|reflexivity].
  destruct bi; cbn; fits; cbn; reflexivity.
Qed.

(** Closing an open writable stream: one [upload_fileobj] call, which reads
    the whole scratch file from its start and hands it to the store; the
    scratch file is released whatever the store answers, and the store's
    exception leaves [close] translated. *)
Lemma close_writable (self : S3File) (st : State) :
  writable self = true ->
  tf_closed (tempfile st) = false ->
  exists st',
    (if tf_readable (tempfile st) then
       let content := content (tempfile st) in
       let put := s3_put (bucket self) (key self) content (world st) in
       close self st
       = (match fst put with
          | Some e => inl (s3errors_raise (path self) e)
          | None => inr tt
          end, st')
       /\ calls st' = calls st ++ [CallUpload (bucket self) (key self);
                                   StorePut (bucket self) (key self) content]
       /\ world st' = snd put
     else
       close self st = (inl (UnsupportedOperation "not readable"), st')
       /\ calls st' = calls st ++ [CallUpload (bucket self) (key self)]
       /\ world st' = world st)
    /\ tf_closed (tempfile st') = true
    /\ buf (tempfile st') = buf (tempfile st)
    /\ upload_count (calls st') = upload_count (calls st) + 1
    /\ download_count (calls st') = download_count (calls st).
Proof.
  destruct st as [[bi r w b p c] wd cs]. cbn. intros Hw ->.
  unfold content. cbn [tf_binary buf].
  unfold_ops. rewrite Hw.
  destruct r.
  - destruct bi; cbn; fits; cbn;
      (destruct (s3_put (bucket self) (key self) _ wd) as [[e|] wd'] eqn:Hput;
       cbn; eexists; (split; [split; [reflexivity|]|]); count_calls).
  - destruct bi; cbn; fits; cbn;
      eexists; (split; [split; [reflexivity|]|]); count_calls.
Qed.

(** [close] always leaves the scratch file closed. *)
Lemma close_releases (self : S3File) (st st' : State) (r : exn + unit) :
  close self st = (r, st') -> tf_closed (tempfile st') = true.
Proof.
  unfold close, try_finally.
  match goal with
  | |- (let (_, _) := ?body in _) = _ -> _ => destruct body as [r0 st0]
  end.
  cbn. intros H. inversion H. reflexivity.
Qed.

(** *** The constructor

    The three ways the constructor can go once [TemporaryFile] has returned
    the scratch file [tf0]. *)
Lemma init_no_fetch (bucket key mode : string) (w : World) (cs : list Call)
  (tf0 : TempFile) :
  TemporaryFile (updatable_mode mode) = inr tf0 ->
  fetches mode = false ->
  S3File_init bucket key mode w cs
  = Opened {| bucket := bucket; key := key; mode := mode;
              path := (bucket ++ "/" ++ key)%string |}
           {| tempfile := tf0; world := w; calls := cs |}.
Proof.
  intros Htf Hf. unfold S3File_init. rewrite Htf.
  unfold fetches in Hf. apply orb_false_iff in Hf as [Ha Hf].
  rewrite Ha in Hf. cbn in Hf.
  unfold_ops. cbn. rewrite Ha. cbn. rewrite Hf. reflexivity.
Qed.

Lemma init_fetch_ok (bucket key mode : string) (w w1 : World)
  (cs : list Call) (tf0 : TempFile) (X : bytes) :
  TemporaryFile (updatable_mode mode) = inr tf0 ->
  fetches mode = true ->
  s3_get bucket key w = (inr X, w1) ->
  tf_writable tf0 = true ->
  S3File_init bucket key mode w cs
  = Opened {| bucket := bucket; key := key; mode := mode;
              path := (bucket ++ "/" ++ key)%string |}
           {| tempfile :=
                with_buf_pos X (if contains "a" mode then length X else 0) tf0;
              world := w1;
              calls := cs ++ [CallDownload bucket key] |}.
Proof.
  intros Htf Hf Hget Hw. unfold S3File_init. rewrite Htf.
  destruct (scratch_file _ _ Htf) as (Hb & Hp & Hc & _).
  destruct tf0 as [bi r wr b p c]. cbn in *. subst b p c wr.
  unfold fetches in Hf.
  set (self := {| bucket := bucket; key := key; mode := mode;
                  path := (bucket ++ "/" ++ key)%string |}).
  set (st1 := {| tempfile := {| tf_binary := bi; tf_readable := r;
                                tf_writable := true; buf := X;
                                pos := 0 + length X; tf_closed := false |};
                 world := w1; calls := cs ++ [CallDownload bucket key] |}).
  assert (Hdl : download_fileobj bucket key
                  {| tempfile := {| tf_binary := bi; tf_readable := r;
                                    tf_writable := true; buf := [];
                                    pos := 0; tf_closed := false |};
                     world := w; calls := cs |}
                = (inr tt, st1)).
  { unfold download_fileobj, record, set_world. cbn_fields. rewrite Hget.
    unfold bind, ret. rewrite tf_write_ok by reflexivity.
    cbn. rewrite overwrite_empty. reflexivity. }
  unfold init_fetch, s3errors, try_except. cbn_fields.
  destruct (contains "a" mode); cbn [orb andb negb] in *.
  - rewrite (bind_ok _ _ _ _ _ Hdl).
    rewrite (bind_ok _ _ _ _ _ (seek_end self st1 eq_refl)). reflexivity.
  - rewrite Hf. rewrite (bind_ok _ _ _ _ _ Hdl).
    rewrite (bind_ok _ _ _ _ _ (seek_start self st1 eq_refl)). reflexivity.
Qed.

Lemma init_fetch_raises (b k m : string) (w w1 : World)
  (cs : list Call) (tf0 : TempFile) (e : exn) :
  TemporaryFile (updatable_mode m) = inr tf0 ->
  fetches m = true ->
  s3_get b k w = (inl e, w1) ->
  let self := {| bucket := b; key := k; mode := m;
                 path := (b ++ "/" ++ k)%string |} in
  S3File_init b k m w cs
  = let (r, st) := close self {| tempfile := tf0; world := w1;
                                 calls := cs ++ [CallDownload b k] |} in
    Failed (match r with
            | inl e' => e'
            | inr _ => s3errors_raise (path self) e
            end) st.
Proof.
  intros Htf Hf Hget self. subst self. unfold S3File_init. rewrite Htf.
  unfold fetches in Hf.
  unfold init_fetch, s3errors, try_except, download_fileobj, bind, raise,
    record, set_world.
  cbn [world tempfile calls bucket key mode path].
  destruct (contains "a" m); cbn [orb andb negb] in Hf.
  - cbn [world tempfile calls bucket key mode path].
    rewrite Hget. destruct (close _ _) as [[e'|[]] st]; reflexivity.
  - cbn [negb andb]. rewrite Hf.
    cbn [world tempfile calls bucket key mode path].
    rewrite Hget. destruct (close _ _) as [[e'|[]] st]; reflexivity.
Qed.

Lemma init_fetch_unwritable (bucket key mode : string) (w w1 : World)
  (cs : list Call) (tf0 : TempFile) (X : bytes) :
  TemporaryFile (updatable_mode mode) = inr tf0 ->
  fetches mode = true ->
  s3_get bucket key w = (inr X, w1) ->
  tf_writable tf0 = false ->
  exists st,
    S3File_init bucket key mode w cs
    = Failed (UnsupportedOperation "not writable") st
    /\ tf_closed (tempfile st) = true
    /\ calls st = cs ++ [CallDownload bucket key]
    /\ world st = w1.
Proof.
  intros Htf Hf Hget Hw. unfold S3File_init. rewrite Htf.
  destruct (scratch_file _ _ Htf) as (Hb & Hp & Hc & _ & Hwr).
  assert (Hself : contains "w" mode || contains "a" mode
                  || contains "+" mode || contains "x" mode = false).
  { destruct (contains "w" mode || contains "a" mode
              || contains "+" mode || contains "x" mode); [|reflexivity].
    rewrite Hwr in Hw; [discriminate | reflexivity]. }
  pose (self := {| bucket := bucket; key := key; mode := mode;
                   path := (bucket ++ "/" ++ key)%string |}).
  pose (st0 := {| tempfile := tf0; world := w; calls := cs |}).
  pose (st1 := {| tempfile := tf0; world := w1;
                  calls := cs ++ [CallDownload bucket key] |}).
  assert (Hdl : download_fileobj bucket key st0
                = (inl (UnsupportedOperation "not writable"), st1)).
  { unfold download_fileobj, record, set_world, st0. cbn_fields.
    rewrite Hget. unfold bind.
    rewrite tf_write_refused by assumption. reflexivity. }
  destruct (close_read_only self st1 Hself)
    as (st2 & Hclose & Hcalls & Hworld & Hcl & _).
  exists st2. split; [|auto].
  unfold fetches in Hf.
  unfold init_fetch, s3errors, try_except. cbn_fields.
  destruct (contains "a" mode); cbn [orb andb negb] in *.
  - rewrite (bind_raises _ _ _ _ _ Hdl). unfold raise at 1.
    cbn [s3errors_raise]. rewrite (bind_ok _ _ _ _ _ Hclose). reflexivity.
  - rewrite Hf. rewrite (bind_raises _ _ _ _ _ Hdl). unfold raise at 1.
    cbn [s3errors_raise]. rewrite (bind_ok _ _ _ _ _ Hclose). reflexivity.
Qed.

(** A stream the constructor returns is open, with the scratch file
    [TemporaryFile] made for its mode and the cursor inside the content. *)
Lemma init_opened (bucket key mode : string) (w : World) (cs : list Call)
  (self : S3File) (st : State) :
  S3File_init bucket key mode w cs = Opened self st ->
  self = {| bucket := bucket; key := key; mode := mode;
            path := (bucket ++ "/" ++ key)%string |}
  /\ open_stream self st
  /\ pos (tempfile st) <= length (buf (tempfile st)).
Proof.
  intros H.
  destruct (TemporaryFile (updatable_mode mode)) as [e|tf0] eqn:Htf.
  { unfold S3File_init in H. rewrite Htf in H. discriminate. }
  destruct (scratch_file _ _ Htf) as (Hb & Hp & Hc & _).
  destruct (fetches mode) eqn:Hf.
  - destruct (s3_get bucket key w) as [[e|X] w1] eqn:Hget.
    + rewrite (init_fetch_raises _ _ _ _ _ _ _ _ Htf Hf Hget) in H.
      destruct (close _ _) as [r st0]. discriminate.
    + destruct (tf_writable tf0) eqn:Hw.
      * rewrite (init_fetch_ok _ _ _ _ _ _ _ _ Htf Hf Hget Hw) in H.
        inversion H; subst. split; [reflexivity|].
        split; [split; [exists tf0; cbn; auto | exact Hc]|].
        cbn. destruct (contains "a" mode); lia.
      * destruct (init_fetch_unwritable _ _ _ _ _ cs _ _ Htf Hf Hget Hw)
          as (st0 & E & _).
        rewrite E in H. discriminate.
  - rewrite (init_no_fetch _ _ _ _ _ _ Htf Hf) in H.
    inversion H; subst. split; [reflexivity|].
    split; [split; [exists tf0; cbn; auto | exact Hc]|].
    cbn. rewrite Hb, Hp. cbn. lia.
Qed.

(** ** Error translation *)

Lemma s3errors_wraps {A} (p : string) (body : M A) (st st' : State) (e : exn) :
  body st = (inl e, st') ->
  s3errors p body st = (inl (s3errors_raise p e), st').
Proof.
  intros H. unfold s3errors, try_except, raise. rewrite H. reflexivity.
Qed.

(** A failing fetch in the constructor of a stream that is not writable:
    the caller gets the translation, with the scratch file closed. *)
Lemma fetch_failure_translated (b k m : string) (w w1 : World)
  (cs : list Call) (tf0 : TempFile) (e : exn) :
  TemporaryFile (updatable_mode m) = inr tf0 ->
  fetches m = true ->
  contains "w" m || contains "a" m || contains "+" m || contains "x" m
  = false ->
  s3_get b k w = (inl e, w1) ->
  exists st,
    S3File_init b k m w cs
    = Failed (s3errors_raise (b ++ "/" ++ k) e) st
    /\ tf_closed (tempfile st) = true
    /\ calls st = cs ++ [CallDownload b k]
    /\ world st = w1.
Proof.
  intros Htf Hf Hw Hget.
  rewrite (init_fetch_raises _ _ _ _ _ cs _ _ Htf Hf Hget).
  match goal with
  | |- context [close ?self ?st] =>
      destruct (close_read_only self st Hw) as (st' & E & Hc & Hwd & Hcl & _)
  end.
  rewrite E. exists st'. cbn in *. auto.
Qed.

(** A failing push in [close]: the caller gets the translation, with the
    scratch file closed. *)
Lemma push_failure_translated (self : S3File) (st : State) (e : exn)
  (w1 : World) :
  writable self = true ->
  tf_closed (tempfile st) = false ->
  tf_readable (tempfile st) = true ->
  s3_put (bucket self) (key self) (content (tempfile st)) (world st)
  = (Some e, w1) ->
  exists st',
    close self st = (inl (s3errors_raise (path self) e), st')
    /\ tf_closed (tempfile st') = true.
Proof.
  intros Hw Ho Hr Hput.
  destruct (close_writable self st Hw Ho) as (st' & H & Hcl & _).
  rewrite Hr in H. cbn zeta in H. rewrite Hput in H. cbn in H.
  destruct H as (H & _). exists st'. auto.
Qed.

(** ** Close and the fetch count *)

Lemma close_download_count (self : S3File) (st st' : State) (r : exn + unit) :
  close self st = (r, st') ->
  download_count (calls st') = download_count (calls st).
Proof.
  destruct (tf_closed (tempfile st)) eqn:Ho.
  - rewrite (close_closed self st Ho). intros H. inversion H. reflexivity.
  - destruct (writable self) eqn:Hw.
    + destruct (close_writable self st Hw Ho) as (st1 & H & _ & _ & _ & Hd).
      destruct (tf_readable (tempfile st)); destruct H as (H & _);
        rewrite H; intros E; inversion E; subst; exact Hd.
    + destruct (close_read_only self st Hw) as (st1 & H & Hc & _).
      rewrite H. intros E. inversion E; subst. rewrite Hc. reflexivity.
Qed.

(** ** Guards and cleanup *)

(** The guarded operations reject from the mode alone and leave the state
    as it was. *)
Lemma capability_guards (self : S3File) (st : State) :
  (readable self = false ->
   (forall n, read self n st = (inl (IOError_msg "not open for reading"), st))
   /\ (forall n,
         readline self n st = (inl (IOError_msg "not open for reading"), st))
   /\ (forall n,
         readlines self n st = (inl (IOError_msg "not open for reading"), st)))
  /\ (writable self = false ->
      (forall b,
         write self b st = (inl (IOError_msg "not open for writing"), st))
      /\ (forall l,
            writelines self l st
            = (inl (IOError_msg "not open for writing"), st))
      /\ (forall n,
            truncate self n st
            = (inl (IOError_msg "not open for writing"), st))).
Proof.
  split; intros H; repeat split; intros;
    unfold read, readline, readlines, write, writelines, truncate;
    rewrite H; reflexivity.
Qed.

(** Whenever the constructor raises after the scratch file was made, the
    scratch file is closed when the exception reaches the caller. *)
Lemma failed_construction_releases (b k m : string) (w : World)
  (cs : list Call) (e : exn) (st : State) :
  S3File_init b k m w cs = Failed e st -> tf_closed (tempfile st) = true.
Proof.
  unfold S3File_init.
  destruct (TemporaryFile (updatable_mode m)) as [e0|tf0]; [discriminate|].
  unfold init_fetch, try_except.
  match goal with
  | |- context [s3errors ?p ?body ?s] =>
      destruct (s3errors p body s) as [[e1|[]] st1]
  end; [|discriminate].
  unfold bind, raise.
  destruct (close _ st1) as [[e2|[]] st2] eqn:Hclose;
    intros H; inversion H; subst; exact (close_releases _ _ _ _ Hclose).
Qed.

End Running.

(** * The claims *)

Section Claims.

Context {store : ObjectStore}.

(** ** Append mode *)



(** ** Truncation *)



End Claims.

(** C1.  Whatever the block wrapped by [s3errors] raises leaves the block
    translated, in this order of precedence: a [ClientError] whose code is
    [NoSuchBucket] becomes EPERM (PermissionDenied), whatever its HTTP
    status; otherwise status 404 becomes ENOENT (NotFound), status 403
    becomes EACCES (PermissionDenied), and any other status becomes
    EOPNOTSUPP (Unsupported); an [SSLError] becomes EOPNOTSUPP
    (Unsupported) and an [EndpointConnectionError] becomes ETIMEDOUT
    (TimedOut).  Each translated error carries the path
    [bucket + '/' + key]: this is the path of the wrapped fetch of the
    constructor and of the wrapped push of [close], which hands the store
    the content of the scratch file as the file reads it. *)
Theorem s3errors_precedence {store : ObjectStore} (A : Type)
  (bucket key : string) (body : M A) (st st' : State) (e : exn) :
  body st = (inl e, st') ->
  let p := (bucket ++ "/" ++ key)%string in
  s3errors p body st = (inl (s3errors_raise p e), st')
  /\ (forall r,
        Error_Code r = Some "NoSuchBucket" ->
        s3errors_raise p (ClientError r) = IOError_errno EPERM p)
  /\ (forall r,
        Error_Code r <> Some "NoSuchBucket" ->
        HTTPStatusCode r = Some 404%Z ->
        s3errors_raise p (ClientError r) = IOError_errno ENOENT p)
  /\ (forall r,
        Error_Code r <> Some "NoSuchBucket" ->
        HTTPStatusCode r = Some 403%Z ->
        s3errors_raise p (ClientError r) = IOError_errno EACCES p)
  /\ (forall r,
        Error_Code r <> Some "NoSuchBucket" ->
        HTTPStatusCode r <> Some 404%Z ->
        HTTPStatusCode r <> Some 403%Z ->
        s3errors_raise p (ClientError r) = IOError_errno EOPNOTSUPP p)
  /\ s3errors_raise p SSLError = IOError_errno EOPNOTSUPP p
  /\ s3errors_raise p EndpointConnectionError = IOError_errno ETIMEDOUT p
  /\ (kind_of (IOError_errno EPERM p) = Some PermissionDenied
      /\ kind_of (IOError_errno ENOENT p) = Some NotFound
      /\ kind_of (IOError_errno EACCES p) = Some PermissionDenied
      /\ kind_of (IOError_errno EOPNOTSUPP p) = Some Unsupported
      /\ kind_of (IOError_errno ETIMEDOUT p) = Some TimedOut)
  /\ (forall mode w cs tf0 e0 w1,
        TemporaryFile (updatable_mode mode) = inr tf0 ->
        fetches mode = true ->
        contains "w" mode || contains "a" mode || contains "+" mode
        || contains "x" mode = false ->
        s3_get bucket key w = (inl e0, w1) ->
        exists s, S3File_init bucket key mode w cs
                  = Failed (s3errors_raise p e0) s)
  /\ (forall mode w cs self s0 s e0 w1,
        S3File_init bucket key mode w cs = Opened self s0 ->
        writable self = true ->
        tf_closed (tempfile s) = false ->
        tf_readable (tempfile s) = true ->
        s3_put bucket key (content (tempfile s)) (world s) = (Some e0, w1) ->
        exists s', close self s = (inl (s3errors_raise p e0), s')).
Proof.
  intros Hbody p.
  split; [exact (s3errors_wraps p body st st' e Hbody)|].
  assert (Hcode : forall c, Some c <> Some "NoSuchBucket" ->
                            String.eqb c "NoSuchBucket" = false).
  { intros c Hc. apply String.eqb_neq. congruence. }
  split; [intros [c s] Hc; cbn in *; subst c; reflexivity|].
  split.
  { intros [[c|] s] Hc Hs; cbn in *; subst s;
      rewrite ?Hcode by assumption; reflexivity. }
  split.
  { intros [[c|] s] Hc Hs; cbn in *; subst s;
      rewrite ?Hcode by assumption; reflexivity. }
  split.
  { intros [c s] Hc H404 H403. cbn in *.
    assert (Hc' : match c with
                  | Some c0 => String.eqb c0 "NoSuchBucket"
                  | None => false
                  end = false)
      by (destruct c; [apply Hcode; assumption | reflexivity]).
    rewrite Hc'.
    destruct s as [s|]; [|reflexivity].
    destruct (Z.eqb_spec s 404); [subst; congruence|].
    destruct (Z.eqb_spec s 403); [subst; congruence|].
    reflexivity. }
  split; [reflexivity|]. split; [reflexivity|].
  split; [repeat split|].
  split.
  - intros mode w cs tf0 e0 w1 Htf Hf Hw Hget.
    destruct (fetch_failure_translated _ _ _ _ _ cs _ _ Htf Hf Hw Hget)
      as (s & E & _).
    exists s. exact E.
  - intros mode w cs self s0 s e0 w1 Hinit Hw Ho Hr Hput.
    destruct (init_opened _ _ _ _ _ _ _ Hinit) as [-> _].
    destruct (push_failure_translated _ s e0 w1 Hw Ho Hr Hput) as (s' & E & _).
    exists s'. exact E.
Qed.

(** C3 (as amended).  Closing an open stream twice makes exactly one
    [upload_fileobj] call when the stream is writable and none when it is
    read-only; the second [close] pushes nothing and changes nothing; it
    returns normally on a read-only stream, and on a writable stream it
    raises the [ValueError] of its [seek] on the closed scratch file. *)
Theorem close_twice {store : ObjectStore} (self : S3File) (st : State) :
  tf_closed (tempfile st) = false ->
  exists r1 st1,
    close self st = (r1, st1)
    /\ upload_count (calls st1)
       = upload_count (calls st) + (if writable self then 1 else 0)
    /\ tf_closed (tempfile st1) = true
    /\ close self st1
       = (if writable self then inl closed_file else inr tt, st1).
Proof.
  intros Ho. destruct (writable self) eqn:Hw.
  - destruct (close_writable self st Hw Ho) as (st1 & H & Hcl & _ & Hup & _).
    assert (Hr : exists r1, close self st = (r1, st1)).
    { destruct (tf_readable (tempfile st)); destruct H as (H & _);
        eexists; exact H. }
    destruct Hr as [r1 Hr]. exists r1, st1.
    rewrite (close_closed self st1 Hcl), Hw. auto.
  - destruct (close_read_only self st Hw) as (st1 & H & Hc & _ & Hcl & _).
    exists (inr tt), st1. rewrite (close_closed self st1 Hcl), Hw, Hc.
    rewrite Nat.add_0_r. auto.
Qed.

(** C4.  A mode that is none of the recognized forms makes the
    constructor raise the [ValueError] with which [TemporaryFile] rejects
    the mode (the specification's InvalidMode); no stream exists, the store
    is untouched and no call to the collaborator has been made. *)
Theorem unrecognized_mode_rejected {store : ObjectStore}
  (bucket key mode : string) (w : World) (cs : list Call) :
  recognized_mode mode = false ->
  exists msg,
    TemporaryFile (updatable_mode mode) = inl (ValueError msg)
    /\ S3File_init bucket key mode w cs = NoBuffer (ValueError msg) w cs.
Proof.
  intros Hrec. unfold S3File_init.
  destruct (TemporaryFile (updatable_mode mode)) as [e|tf] eqn:Htf.
  - destruct (TemporaryFile_raises _ _ Htf) as [msg ->].
    exists msg. split; reflexivity.
  - assert (recognized_mode mode = true)
      by (apply TemporaryFile_recognized; exists tf; exact Htf).
    congruence.
Qed.


(** C6 (as amended).  A stream opened in a read mode (readable, with none
    of [a], [w], [x] in the mode) returns from [read()] the content fetched
    from the store: exactly that content from a binary-mode stream, and that
    content with its line endings translated to newlines (so exactly that
    content, when it has no carriage return) from a text-mode stream.  When
    the stream is moreover not writable, closing it makes no
    [upload_fileobj] call, hands nothing to the store and leaves the store
    as the fetch left it. *)
Theorem read_mode_roundtrip {store : ObjectStore}
  (bucket key mode : string) (w : World) (cs : list Call)
  (self : S3File) (st : State) :
  S3File_init bucket key mode w cs = Opened self st ->
  readable self = true ->
  contains "a" mode = false ->
  contains "w" mode = false ->
  contains "x" mode = false ->
  exists X w1 st1,
    s3_get bucket key w = (inr X, w1)
    /\ read self (-1) st = (inr (as_read (contains "b" mode) X), st1)
    /\ (contains "b" mode = true \/ plain_newlines X = true ->
        read self (-1) st = (inr X, st1))
    /\ buf (tempfile st1) = X
    /\ calls st1 = cs ++ [CallDownload bucket key]
    /\ world st1 = w1
    /\ (writable self = false ->
        exists st2,
          close self st1 = (inr tt, st2)
          /\ upload_count (calls st2) = upload_count cs
          /\ pushed (calls st2) = pushed cs
          /\ world st2 = w1
          /\ tf_closed (tempfile st2) = true).
Proof.
  intros Hinit Hr Ha Hw Hx.
  destruct (init_opened _ _ _ _ _ _ _ Hinit) as [-> _].
  unfold readable in Hr. cbn in Hr.
  destruct (TemporaryFile (updatable_mode mode)) as [e|tf0] eqn:Htf.
  { unfold S3File_init in Hinit. rewrite Htf in Hinit. discriminate. }
  assert (Hf : fetches mode = true)
    by (unfold fetches; rewrite Ha, Hw, Hx; reflexivity).
  destruct (scratch_file _ _ Htf) as (Hb & Hp & Hc & Hrd & _).
  pose proof (scratch_binary _ _ Htf) as Hbin.
  specialize (Hrd Hr).
  destruct (s3_get bucket key w) as [[e|X] w1] eqn:Hget.
  { rewrite (init_fetch_raises _ _ _ _ _ _ _ _ Htf Hf Hget) in Hinit.
    destruct (close _ _) as [r st0]. discriminate. }
  destruct (tf_writable tf0) eqn:Hwr.
  2:{ destruct (init_fetch_unwritable _ _ _ _ _ cs _ _ Htf Hf Hget Hwr)
        as (st0 & E & _).
      rewrite E in Hinit. discriminate. }
  rewrite (init_fetch_ok _ _ _ _ _ _ _ _ Htf Hf Hget Hwr) in Hinit.
  inversion Hinit; subst st. clear Hinit. rewrite Ha.
  assert (Hread : forall self0,
             readable self0 = true ->
             read self0 (-1)
               {| tempfile := with_buf_pos X 0 tf0; world := w1;
                  calls := cs ++ [CallDownload bucket key] |}
             = (inr (as_read (contains "b" mode) X),
                {| tempfile := with_buf_pos X (0 + length X) tf0; world := w1;
                   calls := cs ++ [CallDownload bucket key] |})).
  { intros self0 Hr0. unfold read. rewrite Hr0. cbn [negb].
    rewrite tf_read_all by (cbn; assumption).
    cbn. rewrite Hbin. reflexivity. }
  exists X, w1. eexists. split; [reflexivity|]. split.
  { apply Hread. unfold readable. cbn. exact Hr. }
  split.
  { intros Hplain. rewrite Hread by (unfold readable; cbn; exact Hr).
    rewrite (as_read_plain _ _ Hplain). reflexivity. }
  cbn. split; [reflexivity|]. split; [reflexivity|]. split; [reflexivity|].
  intros Hnw.
  match goal with
  | |- context [close ?self ?s] =>
      destruct (close_read_only self s Hnw) as (st2 & E & Hcalls & Hwd & Hcl & _)
  end.
  exists st2. rewrite E, Hcalls, Hwd. cbn.
  split; [reflexivity|]. split; [count_calls|].
  split; [|auto]. rewrite pushed_app. cbn. apply app_nil_r.
Qed.


(** C9.  When the scratch file exists, the mode makes the stream writable
    and the fetch of the constructor raises, the constructor's cleanup runs
    [close()]: one [upload_fileobj] call is made before the scratch file is
    released.  With a readable scratch file the (empty) buffer is handed to
    the store, whose state becomes what that push makes it, and the caller
    gets the translation of the push's exception when the push raises, and
    of the fetch's otherwise; with a scratch file that cannot be read the
    upload's read fails and that exception reaches the caller. *)
Theorem failed_open_pushes {store : ObjectStore}
  (bucket key mode : string) (w w1 : World) (cs : list Call)
  (tf0 : TempFile) (e : exn) :
  TemporaryFile (updatable_mode mode) = inr tf0 ->
  contains "w" mode || contains "a" mode || contains "+" mode
  || contains "x" mode = true ->
  fetches mode = true ->
  s3_get bucket key w = (inl e, w1) ->
  let p := (bucket ++ "/" ++ key)%string in
  exists err st,
    S3File_init bucket key mode w cs = Failed err st
    /\ tf_closed (tempfile st) = true
    /\ upload_count (calls st) = upload_count cs + 1
    /\ if tf_readable tf0 then
         let put := s3_put bucket key [] w1 in
         calls st = cs ++ [CallDownload bucket key; CallUpload bucket key;
                           StorePut bucket key []]
         /\ world st = snd put
         /\ err = match fst put with
                  | Some e' => s3errors_raise p e'
                  | None => s3errors_raise p e
                  end
       else
         calls st = cs ++ [CallDownload bucket key; CallUpload bucket key]
         /\ world st = w1
         /\ err = UnsupportedOperation "not readable".
Proof.
  intros Htf Hw Hf Hget p.
  rewrite (init_fetch_raises _ _ _ _ _ cs _ _ Htf Hf Hget).
  destruct (scratch_file _ _ Htf) as (Hb & _ & Hc & _).
  match goal with
  | |- context [close ?self ?s] =>
      destruct (close_writable self s Hw Hc) as (st & H & Hcl & _ & Hup & _)
  end.
  cbn_fields. rewrite (content_empty _ Hb) in H.
  destruct (tf_readable tf0); cbn zeta in H.
  - destruct H as (H & Hcalls & Hwd). rewrite H.
    eexists. exists st. split; [reflexivity|]. split; [exact Hcl|].
    split; [rewrite Hup; count_calls|].
    split; [rewrite Hcalls, <- app_assoc; reflexivity|].
    split; [exact Hwd|].
    destruct (fst (s3_put bucket key [] w1)); reflexivity.
  - destruct H as (H & Hcalls & Hwd). rewrite H.
    eexists. exists st. split; [reflexivity|]. split; [exact Hcl|].
    split; [rewrite Hup; count_calls|].
    split; [rewrite Hcalls, <- app_assoc; reflexivity|].
    split; [exact Hwd | reflexivity].
Qed.

(** C10 (as amended).  For every mode string [readable()] holds exactly
    when the mode contains [r] or [+] and [writable()] exactly when it
    contains [w], [a], [+] or [x], and a stream that is not readable (not
    writable) rejects [read] ([write]) whatever its state.  The constructor
    calls [download_fileobj] once when the mode is a recognized form and
    contains [a] or none of [a], [w], [x], and never otherwise: an
    unrecognized token is rejected by [TemporaryFile] before any fetch, and
    no stream is constructed. *)
Theorem capabilities_and_fetch {store : ObjectStore}
  (bucket key mode : string) (w : World) (cs : list Call) :
  let self := {| bucket := bucket; key := key; mode := mode;
                 path := (bucket ++ "/" ++ key)%string |} in
  readable self = (contains "r" mode || contains "+" mode)
  /\ writable self = (contains "w" mode || contains "a" mode
                      || contains "+" mode || contains "x" mode)
  /\ (forall st n,
        contains "r" mode || contains "+" mode = false ->
        read self n st = (inl (IOError_msg "not open for reading"), st))
  /\ (forall st b,
        contains "w" mode || contains "a" mode || contains "+" mode
        || contains "x" mode = false ->
        write self b st = (inl (IOError_msg "not open for writing"), st))
  /\ download_count (calls_after (S3File_init bucket key mode w cs))
     = download_count cs
       + (if recognized_mode mode
             && (contains "a" mode
                 || negb (contains "a" mode || contains "w" mode
                          || contains "x" mode))
          then 1 else 0)
  /\ (recognized_mode mode = false ->
      exists msg, S3File_init bucket key mode w cs
                  = NoBuffer (ValueError msg) w cs).
Proof.
  intros self.
  split; [reflexivity|]. split; [reflexivity|].
  split; [intros st n H; unfold read, readable; cbn; rewrite H; reflexivity|].
  split; [intros st b H; unfold write, writable; cbn; rewrite H; reflexivity|].
  assert (Hfetch : contains "a" mode
                   || negb (contains "a" mode || contains "w" mode
                            || contains "x" mode) = fetches mode).
  { unfold fetches. destruct (contains "a" mode), (contains "w" mode),
      (contains "x" mode); reflexivity. }
  rewrite Hfetch. split.
  - destruct (TemporaryFile (updatable_mode mode)) as [e|tf0] eqn:Htf.
    + assert (Hrec : recognized_mode mode = false).
      { destruct (recognized_mode mode) eqn:Hrec; [|reflexivity].
        apply TemporaryFile_recognized in Hrec as [tf Htf'].
        congruence. }
      rewrite Hrec. unfold S3File_init. rewrite Htf. count_calls.
    + assert (Hrec : recognized_mode mode = true)
        by (apply TemporaryFile_recognized; exists tf0; exact Htf).
      rewrite Hrec. cbn [andb].
      destruct (fetches mode) eqn:Hf.
      * destruct (s3_get bucket key w) as [[e|X] w1] eqn:Hget.
        -- rewrite (init_fetch_raises _ _ _ _ _ cs _ _ Htf Hf Hget).
           destruct (close _ _) as [r st] eqn:Hclose.
           apply close_download_count in Hclose.
           cbn [calls_after]. rewrite Hclose. count_calls.
        -- destruct (tf_writable tf0) eqn:Hwr.
           ++ rewrite (init_fetch_ok _ _ _ _ _ _ _ _ Htf Hf Hget Hwr).
              count_calls.
           ++ destruct (init_fetch_unwritable _ _ _ _ _ cs _ _ Htf Hf Hget Hwr)
                as (st & E & _ & Hcalls & _).
              rewrite E. cbn [calls_after]. rewrite Hcalls. count_calls.
      * rewrite (init_no_fetch _ _ _ _ _ _ Htf Hf). count_calls.
  - intros Hrec. unfold S3File_init.
    destruct (TemporaryFile (updatable_mode mode)) as [e|tf] eqn:Htf.
    + destruct (TemporaryFile_raises _ _ Htf) as [msg ->].
      exists msg. reflexivity.
    + assert (recognized_mode mode = true)
        by (apply TemporaryFile_recognized; exists tf; exact Htf).
      congruence.
Qed.

(** * The claims on the test double *)

Ltac by_computation := cbv; reflexivity.

Lemma s3errors_precedence_witness :
  let p := "test-bucket/path/to/gettysburg.txt" in
  let body : M unit := download_fileobj "test-bucket" "path/to/gettysburg.txt" in
  let st := {| tempfile := tempfile update_state; world := empty_world;
               calls := [] |} in
  let st' := {| tempfile := tempfile update_state; world := empty_world;
                calls := [CallDownload "test-bucket" "path/to/gettysburg.txt"] |} in
  body st = (inl (ClientError not_found_response), st')
  /\ s3errors p body st = (inl (IOError_errno ENOENT p), st')
  /\ s3errors_raise p (ClientError {| Error_Code := Some "NoSuchBucket";
                                      HTTPStatusCode := Some 404%Z |})
     = IOError_errno EPERM p
  /\ s3errors_raise p (ClientError forbidden_response) = IOError_errno EACCES p
  /\ s3errors_raise p (ClientError {| Error_Code := None;
                                      HTTPStatusCode := Some 500%Z |})
     = IOError_errno EOPNOTSUPP p.
Proof.
  intros p body st st'.
  destruct (@s3errors_precedence mock_store unit "test-bucket" "path/to/gettysburg.txt"
              body st st' (ClientError not_found_response) eq_refl)
    as (H & Hbucket & _ & H403 & Hother & _).
  split; [reflexivity|]. split; [exact H|].
  split; [apply Hbucket; reflexivity|].
  split; [apply H403; [discriminate | reflexivity]|].
  apply Hother; discriminate.
Defined.


Lemma close_twice_witness :
  tf_closed (tempfile update_state) = false
  /\ exists r1 st1,
       close (test_file "r+") update_state = (r1, st1)
       /\ upload_count (calls st1) = 1
       /\ tf_closed (tempfile st1) = true
       /\ close (test_file "r+") st1 = (inl closed_file, st1).
Proof.
  split; [reflexivity|].
  exact (@close_twice mock_store (test_file "r+") update_state eq_refl).
Defined.

Lemma unrecognized_mode_rejected_witness :
  recognized_mode "z" = false
  /\ exists msg,
       TemporaryFile (updatable_mode "z") = inl (ValueError msg)
       /\ make_s3file "z" gettysburg_world
          = NoBuffer (ValueError msg) gettysburg_world [].
Proof.
  split; [reflexivity|].
  exact (@unrecognized_mode_rejected mock_store "test-bucket" "path/to/gettysburg.txt" "z"
           gettysburg_world [] eq_refl).
Defined.

Lemma read_mode_roundtrip_witness :
  make_s3file "r" gettysburg_world = Opened (test_file "r") update_state
  /\ readable (test_file "r") = true
  /\ writable (test_file "r") = false
  /\ plain_newlines GETTYSBURG = true
  /\ exists st1 st2,
       read (test_file "r") (-1) update_state = (inr GETTYSBURG, st1)
       /\ close (test_file "r") st1 = (inr tt, st2)
       /\ upload_count (calls st2) = 0.
Proof.
  assert (Hplain : plain_newlines GETTYSBURG = true)
    by (vm_compute; reflexivity).
  split; [reflexivity|]. split; [reflexivity|]. split; [reflexivity|].
  split; [exact Hplain|].
  destruct (@read_mode_roundtrip mock_store "test-bucket"
              "path/to/gettysburg.txt" "r" gettysburg_world []
              (test_file "r") update_state
              eq_refl eq_refl eq_refl eq_refl eq_refl)
    as (X & w1 & st1 & Hget & _ & Hread & _ & _ & _ & Hclose).
  assert (HX : X = GETTYSBURG).
  { assert (E : s3_get "test-bucket" "path/to/gettysburg.txt" gettysburg_world
                = (inr GETTYSBURG, gettysburg_world)) by reflexivity.
    rewrite E in Hget. inversion Hget. reflexivity. }
  destruct (Hclose eq_refl) as (st2 & Hc & Hup & _).
  exists st1, st2. split; [|split; [exact Hc | exact Hup]].
  rewrite <- HX. apply Hread. right. rewrite HX. exact Hplain.
Defined.


Lemma failed_open_pushes_witness :
  TemporaryFile (updatable_mode "a") = inr append_scratch
  /\ fetches "a" = true
  /\ s3_get "test-bucket" "path/to/gettysburg.txt" empty_world
     = (inl (ClientError not_found_response), empty_world)
  /\ exists st,
       make_s3file "a" empty_world
       = Failed (IOError_errno ENOENT "test-bucket/path/to/gettysburg.txt") st
       /\ upload_count (calls st) = 1
       /\ remote (world st) = Some [].
Proof.
  split; [reflexivity|]. split; [reflexivity|]. split; [reflexivity|].
  destruct (@failed_open_pushes mock_store "test-bucket"
              "path/to/gettysburg.txt" "a" empty_world empty_world []
              append_scratch (ClientError not_found_response)
              eq_refl eq_refl eq_refl eq_refl)
    as (err & st & Hinit & _ & Hup & Hcalls & Hworld & Herr).
  exists st. unfold make_s3file. rewrite Hinit, Herr, Hworld.
  split; [reflexivity|]. split; [exact Hup | reflexivity].
Defined.

Lemma capabilities_and_fetch_witness :
  recognized_mode "z" = false
  /\ download_count (calls_after (make_s3file "z" gettysburg_world)) = 0
  /\ download_count (calls_after (make_s3file "a" gettysburg_world)) = 1
  /\ download_count (calls_after (make_s3file "w" gettysburg_world)) = 0
  /\ exists msg, make_s3file "z" gettysburg_world
                 = NoBuffer (ValueError msg) gettysburg_world [].
Proof.
  split; [reflexivity|].
  split; [exact (proj1 (proj2 (proj2 (proj2 (proj2
            (@capabilities_and_fetch mock_store "test-bucket" "path/to/gettysburg.txt" "z"
               gettysburg_world []))))))|].
  split; [exact (proj1 (proj2 (proj2 (proj2 (proj2
            (@capabilities_and_fetch mock_store "test-bucket" "path/to/gettysburg.txt" "a"
               gettysburg_world []))))))|].
  split; [exact (proj1 (proj2 (proj2 (proj2 (proj2
            (@capabilities_and_fetch mock_store "test-bucket" "path/to/gettysburg.txt" "w"
               gettysburg_world []))))))|].
  exact (proj2 (proj2 (proj2 (proj2 (proj2
           (@capabilities_and_fetch mock_store "test-bucket" "path/to/gettysburg.txt" "z"
              gettysburg_world []))))) eq_refl).
Defined.


(** C3, as stated: closing a writable stream a second time raises. *)
Lemma close_twice_writable_raises :
  exists self st st1,
    make_s3file "w" gettysburg_world = Opened self st
    /\ writable self = true
    /\ close self st = (inr tt, st1)
    /\ upload_count (calls st1) = 1
    /\ close self st1 = (inl closed_file, st1).
Proof.
  do 3 eexists. split; [by_computation|]. split; [by_computation|].
  split; [by_computation|]. split; by_computation.
Qed.

(** C6, as stated: a read-capable stream opened with [r+] reads the
    fetched content and still pushes on close; one opened with [a+] reads
    nothing although content was fetched; and one opened with [r] on content
    with carriage returns reads it with every line ending turned into a
    newline. *)
Lemma read_capable_close_pushes :
  (exists self st st1 st2,
     make_s3file "r+" gettysburg_world = Opened self st
     /\ readable self = true
     /\ read self (-1) st = (inr GETTYSBURG, st1)
     /\ close self st1 = (inr tt, st2)
     /\ upload_count (calls st2) = 1
     /\ pushed (calls st2) = [GETTYSBURG])
  /\ (exists self st st1,
        make_s3file "a+" gettysburg_world = Opened self st
        /\ readable self = true
        /\ buf (tempfile st) = GETTYSBURG
        /\ read self (-1) st = (inr [], st1))
  /\ (exists self st st1,
        make_s3file "r" mixed_world = Opened self st
        /\ readable self = true
        /\ s3_get "test-bucket" "path/to/gettysburg.txt" mixed_world
           = (inr mixed_endings, mixed_world)
        /\ read self (-1) st
           = (inr (list_ascii_of_string
                     ("one" ++ String newline ("two" ++ String newline
                        ("three" ++ String newline "")))), st1)
        /\ fst (read self (-1) st) <> inr mixed_endings).
Proof.
  split; [|split].
  - do 4 eexists. split; [by_computation|]. split; [by_computation|].
    split; [by_computation|]. split; [by_computation|]. split; by_computation.
  - do 3 eexists. split; [by_computation|]. split; [by_computation|].
    split; by_computation.
  - do 3 eexists. split; [by_computation|]. split; [by_computation|].
    split; [by_computation|]. split; [by_computation|].
    intros H. vm_compute in H. discriminate H.
Qed.


(** C10, as stated: the token [z] constructs no stream and fetches
    nothing. *)
Lemma unrecognized_token_no_stream :
  make_s3file "z" gettysburg_world
  = NoBuffer (ValueError "invalid mode: 'z'") gettysburg_world []
  /\ download_count (calls_after (make_s3file "z" gettysburg_world)) = 0.
Proof.
  split; by_computation.
Qed.

(** C5.  [readinto] on a stream that is not readable: opened with [wb],
    after writing [abc] and seeking to the start, [readinto] of a five-byte
    buffer returns 3 and fills the buffer, where [read] on the same state
    raises "not open for reading". *)
Theorem readinto_unguarded :
  exists self st st1,
    make_s3file "wb" gettysburg_world = Opened self st
    /\ readable self = false
    /\ (write self (list_ascii_of_string "abc") ;; seek self 0 SEEK_SET) st
       = (inr 0%Z, st1)
    /\ read self (-1) st1 = (inl (IOError_msg "not open for reading"), st1)
    /\ fst (readinto self (list_ascii_of_string "zzzzz") st1)
       = inr (3, list_ascii_of_string "abczz").
Proof.
  do 3 eexists. split; [by_computation|]. split; [by_computation|].
  split; [by_computation|]. split; by_computation.
Qed.

(** C7.  A failed open in mode [a] of an object that does not exist: the
    fetch answers 404 (ENOENT once translated) and the cleanup's [close()]
    pushes the empty buffer before the scratch file is released.  When that
    push cannot reach the endpoint the caller gets ETIMEDOUT, not ENOENT;
    when it succeeds the caller gets ENOENT and the store now holds an empty
    object under the key. *)
Theorem failed_open_masks_fetch_error :
  s3_get "test-bucket" "path/to/gettysburg.txt" unreachable_world
  = (inl (ClientError not_found_response), unreachable_world)
  /\ s3errors_raise "test-bucket/path/to/gettysburg.txt"
       (ClientError not_found_response)
     = IOError_errno ENOENT "test-bucket/path/to/gettysburg.txt"
  /\ (exists st,
        make_s3file "a" unreachable_world
        = Failed (IOError_errno ETIMEDOUT "test-bucket/path/to/gettysburg.txt")
                 st
        /\ calls st = [CallDownload "test-bucket" "path/to/gettysburg.txt";
                       CallUpload "test-bucket" "path/to/gettysburg.txt";
                       StorePut "test-bucket" "path/to/gettysburg.txt" []]
        /\ tf_closed (tempfile st) = true)
  /\ (exists st,
        make_s3file "a" empty_world
        = Failed (IOError_errno ENOENT "test-bucket/path/to/gettysburg.txt") st
        /\ remote empty_world = None
        /\ remote (world st) = Some []
        /\ tf_closed (tempfile st) = true).
Proof.
  split; [by_computation|]. split; [by_computation|]. split.
  - eexists. split; [by_computation|]. split; by_computation.
  - eexists. split; [by_computation|]. split; [by_computation|]. split; by_computation.
Qed.

(** * Further properties of the stream *)

Section Further.

Context {store : ObjectStore}.

Lemma same_store_refl (st : State) : same_store st st.
Proof. unfold same_store. auto. Qed.

Lemma same_store_trans (st1 st2 st3 : State) :
  same_store st1 st2 -> same_store st2 st3 -> same_store st1 st3.
Proof.
  unfold same_store. intros (A1 & A2 & A3 & A4 & A5) (B1 & B2 & B3 & B4 & B5).
  repeat split; congruence.
Qed.

(** An operation of the scratch file that moves the cursor or replaces the
    content, or is refused, leaves everything else as it was. *)
Lemma checked_frame {A} (checks : TempFile -> list (bool * exn))
  (k : TempFile -> State -> (exn + A) * State) (st : State) :
  same_store st (snd (k (tempfile st) st)) ->
  same_store st (snd (checked checks k st)).
Proof.
  intros H. unfold checked.
  destruct (first_error (checks (tempfile st))); [apply same_store_refl|].
  exact H.
Qed.

Lemma advance_frame {A} (a : A) (k : nat) (st : State) :
  same_store st (snd (advance a k (tempfile st) st)).
Proof. unfold same_store. cbn. auto. Qed.

Ltac frame_op :=
  intros; apply checked_frame;
  repeat match goal with
         | |- context [if ?b then _ else _] => destruct b
         | |- context [let (_, _) := ?x in _] => destruct x
         | |- context [match ?x with inl _ => _ | inr _ => _ end] => destruct x
         end;
  first [apply advance_frame | apply same_store_refl
        | unfold same_store; cbn; auto].

Lemma tf_read_frame (n : Z) (st : State) :
  same_store st (snd (tf_read n st)).
Proof. unfold tf_read. frame_op. Qed.

Lemma tf_readline_frame (n : Z) (st : State) :
  same_store st (snd (tf_readline n st)).
Proof. unfold tf_readline. frame_op. Qed.

Lemma tf_readlines_frame (n : Z) (st : State) :
  same_store st (snd (tf_readlines n st)).
Proof. unfold tf_readlines. frame_op. Qed.

Lemma tf_readinto_frame (b : bytes) (st : State) :
  same_store st (snd (tf_readinto b st)).
Proof. unfold tf_readinto. frame_op. Qed.

Lemma tf_write_frame (d : bytes) (st : State) :
  same_store st (snd (tf_write d st)).
Proof. unfold tf_write. frame_op. Qed.

Lemma tf_tell_frame (st : State) : same_store st (snd (tf_tell st)).
Proof. unfold tf_tell. frame_op. Qed.

Lemma tf_seek_frame (o w : Z) (st : State) :
  same_store st (snd (tf_seek o w st)).
Proof. unfold tf_seek. frame_op. Qed.

Lemma tf_truncate_frame (n : Z) (st : State) :
  same_store st (snd (tf_truncate n st)).
Proof. unfold tf_truncate. frame_op. Qed.

Lemma bind_frame {A B} (m : M A) (f : A -> M B) (st : State) :
  same_store st (snd (m st)) ->
  (forall a st1, same_store st1 (snd (f a st1))) ->
  same_store st (snd (bind m f st)).
Proof.
  intros Hm Hf. unfold bind.
  destruct (m st) as [[e|a] st1]; cbn in *; [exact Hm|].
  eapply same_store_trans; [exact Hm | apply Hf].
Qed.

Lemma write_each_frame (lines : list bytes) (st : State) :
  same_store st (snd (write_each lines st)).
Proof.
  revert st. induction lines as [|l ls IH]; intros st; cbn.
  - apply same_store_refl.
  - apply bind_frame; [apply tf_write_frame | intros _ st1; apply IH].
Qed.

(** Reading, writing, repositioning and truncating work on the scratch
    file only: whatever they return or raise, the store is as it was, no call
    to the store client has been made, and the scratch file is as open and as
    capable as before. *)
Theorem stream_operations_are_local (self : S3File) (st : State) :
  (forall n, same_store st (snd (read self n st)))
  /\ (forall n, same_store st (snd (readline self n st)))
  /\ (forall n, same_store st (snd (readlines self n st)))
  /\ (forall b, same_store st (snd (readinto self b st)))
  /\ (forall b, same_store st (snd (write self b st)))
  /\ (forall l, same_store st (snd (writelines self l st)))
  /\ (forall o w, same_store st (snd (seek self o w st)))
  /\ same_store st (snd (tell self st))
  /\ (forall n, same_store st (snd (truncate self n st))).
Proof.
  split.
  { intros n. unfold read. destruct (negb (readable self));
      [apply same_store_refl | apply tf_read_frame]. }
  split.
  { intros n. unfold readline. destruct (negb (readable self));
      [apply same_store_refl | apply tf_readline_frame]. }
  split.
  { intros n. unfold readlines. destruct (negb (readable self));
      [apply same_store_refl | apply tf_readlines_frame]. }
  split; [intros b; apply tf_readinto_frame|].
  split.
  { intros b. unfold write. destruct (negb (writable self));
      [apply same_store_refl|].
    apply bind_frame; [apply tf_write_frame|].
    intros _ st1. apply same_store_refl. }
  split.
  { intros l. unfold writelines. destruct (negb (writable self));
      [apply same_store_refl|].
    unfold tf_writelines. apply bind_frame.
    - apply checked_frame. apply same_store_refl.
    - intros _ st1. apply write_each_frame. }
  split.
  { intros o w. unfold seek. apply bind_frame; [apply tf_seek_frame|].
    intros _ st1. apply tf_tell_frame. }
  split; [apply tf_tell_frame|].
  intros n. unfold truncate. destruct (negb (writable self));
    [apply same_store_refl|].
  apply bind_frame.
  - destruct n; [apply same_store_refl | apply tf_tell_frame].
  - intros s st1. apply bind_frame; [apply tf_truncate_frame|].
    intros _ st2. apply same_store_refl.
Qed.

(** What the constructor gave the scratch file of a stream that can be
    read, or written. *)
Lemma stream_capabilities (self : S3File) (st : State) :
  stream_state self st ->
  (readable self = true -> tf_readable (tempfile st) = true)
  /\ (writable self = true -> tf_writable (tempfile st) = true).
Proof.
  intros (tf0 & Htf & _ & Hr & Hw).
  destruct (scratch_file _ _ Htf) as (_ & _ & _ & Hrd & Hwr).
  rewrite Hr, Hw. split; assumption.
Qed.

(** Once the scratch file of a stream is closed, [closed] is true and the
    operations change nothing and raise: [read] (of -1 or of a size that
    fits), [readline], [readlines], [write], [writelines], [truncate], [seek]
    (from the start, the cursor or the end) and [tell] raise the [ValueError]
    of a closed file on a stream whose mode allows them; the unguarded
    [readinto] raises it on a readable binary scratch file, is refused by one
    that cannot be read, and does not exist on a text one. *)
Theorem use_after_close (self : S3File) (st : State) :
  stream_state self st ->
  tf_closed (tempfile st) = true ->
  closed self st = (inr true, st)
  /\ (readable self = true ->
      (forall n, (-1 <= n <= PY_SSIZE_T_MAX)%Z ->
                 read self n st = (inl closed_file, st))
      /\ (forall n, fits_ssize_t n = true ->
                    readline self n st = (inl closed_file, st))
      /\ (forall n, fits_ssize_t n = true ->
                    readlines self n st = (inl closed_file, st)))
  /\ (forall b,
        readinto self b st
        = (inl (if tf_binary (tempfile st) then
                  if tf_readable (tempfile st) then closed_file
                  else not_readable
                else no_readinto), st))
  /\ (writable self = true ->
      (forall b, write self b st = (inl closed_file, st))
      /\ (forall l, writelines self l st = (inl closed_file, st))
      /\ (forall n, truncate self n st = (inl closed_file, st)))
  /\ (forall o w,
        w = SEEK_SET \/ w = SEEK_CUR \/ w = SEEK_END ->
        seek self o w st = (inl closed_file, st))
  /\ tell self st = (inl closed_file, st).
Proof.
  intros Hst Hc. destruct (stream_capabilities self st Hst) as [Hrd Hwr].
  destruct st as [[bi r w b p c] wd cs]. cbn in Hc, Hrd, Hwr. subst c.
  split; [reflexivity|].
  split.
  { intros H. rewrite (Hrd H). repeat split; intros n Hn.
    - assert (Hfit : fits_ssize_t n = true)
        by (apply fits_ssize_t_spec; unfold PY_SSIZE_T_MAX in *; lia).
      assert (Hlow : (n <? -1)%Z = false) by (apply Z.ltb_ge; lia).
      unfold_ops. rewrite H. destruct bi; cbn; rewrite Hfit; cbn;
        rewrite ?Hlow; reflexivity.
    - unfold_ops. rewrite H. destruct bi; cbn; rewrite Hn; reflexivity.
    - unfold_ops. rewrite H. cbn. rewrite Hn. reflexivity. }
  split.
  { intros b0. unfold_ops. destruct bi, r; reflexivity. }
  split.
  { intros H. rewrite (Hwr H). repeat split; intros.
    - unfold_ops. rewrite H. destruct bi; reflexivity.
    - unfold_ops. rewrite H. reflexivity.
    - unfold_ops. rewrite H. destruct n; reflexivity. }
  split; [|reflexivity].
  intros o w0 [-> | [-> | ->]]; destruct bi; run_ops; reflexivity.
Qed.

(** [seek] on an open stream, from the start, the cursor or the end.  On a
    binary-mode stream a target inside the content or at its end is reached:
    [seek] returns it, [tell] then reports it and the content is as it was;
    a target before the start raises EINVAL and moves nothing.  On a
    text-mode stream a seek relative to the cursor or to the end with an
    offset other than 0 is refused and a negative position is a
    [ValueError], neither moving anything; a position inside the content or
    at its end, and the end itself, are reached (positions counting
    characters of one byte each). *)
Theorem seek_returns_position (self : S3File) (st : State)
  (offset whence : Z) :
  tf_closed (tempfile st) = false ->
  whence = SEEK_SET \/ whence = SEEK_CUR \/ whence = SEEK_END ->
  fits_ssize_t offset = true ->
  let size := Z.of_nat (length (buf (tempfile st))) in
  let origin :=
    if (whence =? SEEK_SET)%Z then 0%Z
    else if (whence =? SEEK_CUR)%Z then Z.of_nat (pos (tempfile st))
    else size in
  let target := (origin + offset)%Z in
  let reached :=
    exists st',
      seek self offset whence st = (inr target, st')
      /\ tell self st' = (inr target, st')
      /\ pos (tempfile st') = Z.to_nat target
      /\ buf (tempfile st') = buf (tempfile st)
      /\ same_store st st' in
  (tf_binary (tempfile st) = true ->
   ((0 <= target <= size)%Z -> reached)
   /\ ((target < 0)%Z ->
       seek self offset whence st = (inl invalid_argument, st)))
  /\ (tf_binary (tempfile st) = false ->
      (whence <> SEEK_SET -> offset <> 0%Z ->
       exists msg,
         seek self offset whence st = (inl (UnsupportedOperation msg), st))
      /\ (whence = SEEK_SET -> (offset < 0)%Z ->
          exists msg,
            seek self offset whence st = (inl (ValueError msg), st))
      /\ (seven_bit (buf (tempfile st)) = true ->
          (whence = SEEK_SET /\ (0 <= offset <= size)%Z)
          \/ (whence = SEEK_END /\ offset = 0%Z) ->
          reached)).
Proof.
  destruct st as [[bi r w b p c] wd cs]. cbn. intros -> Hwh Hfit.
  assert (E : forall t, (0 <= t)%Z ->
                        (t <? 0)%Z = false /\ Z.of_nat (Z.to_nat t) = t)
    by (intros t Ht; split; [apply Z.ltb_ge; lia | lia]).
  assert (E' : forall t, (t < 0)%Z -> (t <? 0)%Z = true)
    by (intros t Ht; apply Z.ltb_lt; lia).
  split.
  - intros ->.
    destruct Hwh as [-> | [-> | ->]]; cbn; (split; intros Ht;
      [destruct (E _ (proj1 Ht)) as [E1 E2]; run_ops; rewrite Hfit; cbn;
       rewrite E1; cbn;
       eexists; split; [rewrite E2; reflexivity|]; cbn; rewrite E2;
       unfold same_store; cbn; auto 10
      |run_ops; rewrite Hfit; cbn; rewrite (E' _ Ht); reflexivity]).
  - intros ->. split; [|split].
    + intros Hw Ho. apply Z.eqb_neq in Ho.
      destruct Hwh as [-> | [-> | ->]]; [contradiction Hw; reflexivity | |];
        eexists; run_ops; rewrite Ho; cbn; reflexivity.
    + intros -> Ho. eexists. run_ops. rewrite (E' _ Ho). reflexivity.
    + intros _ [[-> Ho] | [-> ->]].
      * destruct (E _ (proj1 Ho)) as [E1 E2]. run_ops. rewrite E1. cbn.
        eexists; split; [rewrite E2; reflexivity|]; cbn; rewrite E2;
          unfold same_store; cbn; auto 10.
      * assert (Hs : (0 <= Z.of_nat (length b) + 0)%Z) by lia.
        destruct (E _ Hs) as [E1 E2]. run_ops. rewrite E1. cbn.
        eexists; split; [rewrite E2; reflexivity|]; cbn; rewrite E2;
          unfold same_store; cbn; auto 10.
Qed.

(** What leaves an [s3errors] block is never one of the store client's
    exception classes; those become an [IOError] carrying the path and an
    errno the taxonomy names, every other exception passes unchanged, and
    translating twice is translating once. *)
Theorem s3errors_raise_normalizes (p : string) (e : exn) :
  store_specific (s3errors_raise p e) = false
  /\ s3errors_raise p (s3errors_raise p e) = s3errors_raise p e
  /\ (store_specific e = false -> s3errors_raise p e = e)
  /\ (store_specific e = true ->
      exists errno kind,
        s3errors_raise p e = IOError_errno errno p
        /\ kind_of (s3errors_raise p e) = Some kind).
Proof.
  destruct e as [[code status]| | | | | | | |]; cbn;
    repeat match goal with
           | |- context [if ?b then _ else _] => destruct b; cbn
           end;
    repeat split; try discriminate; try reflexivity;
    intros _; eexists; eexists; split; reflexivity.
Qed.

(** Scoped use always ends with the scratch file closed, whatever the body
    did and whether it raised; when the body left the stream open, a
    writable stream has been pushed exactly once and a read-only stream not
    at all, and a read-only stream's block returns or raises what its body
    did. *)
Theorem with_stream_closes {A} (self : S3File) (body : S3File -> M A)
  (st : State) :
  tf_closed (tempfile (snd (with_stream self body st))) = true
  /\ (tf_closed (tempfile (snd (body self st))) = false ->
      upload_count (calls (snd (with_stream self body st)))
      = upload_count (calls (snd (body self st)))
        + (if writable self then 1 else 0))
  /\ (writable self = false ->
      fst (with_stream self body st) = fst (body self st)
      /\ calls (snd (with_stream self body st)) = calls (snd (body self st))
      /\ world (snd (with_stream self body st)) = world (snd (body self st))).
Proof.
  unfold with_stream, enter, exit, try_finally.
  destruct (body self st) as [r st1]. cbn [snd fst].
  split; [|split].
  - destruct (close self st1) as [[e|[]] st2] eqn:Hc; cbn;
      exact (close_releases _ _ _ _ Hc).
  - intros Ho. destruct (writable self) eqn:Hw.
    + destruct (close_writable self st1 Hw Ho) as (st2 & H & _ & _ & Hup & _).
      destruct (tf_readable (tempfile st1)); destruct H as (H & _);
        rewrite H;
        repeat match goal with
               | |- context [match ?x with Some _ => _ | None => _ end] =>
                   destruct x
               end; exact Hup.
    + destruct (close_read_only self st1 Hw) as (st2 & Hc & Hcalls & _).
      rewrite Hc. cbn. rewrite Hcalls. lia.
  - intros Hw.
    destruct (close_read_only self st1 Hw) as (st2 & Hc & Hcalls & Hwd & _).
    rewrite Hc. cbn. auto.
Qed.

(** ** Reading *)

Lemma skipn_firstn_length {T} (n : nat) (l : list T) :
  skipn (length (firstn n l)) l = skipn n l.
Proof.
  rewrite length_firstn. destruct (Nat.le_gt_cases n (length l)) as [H|H].
  - rewrite Nat.min_l by exact H. reflexivity.
  - rewrite Nat.min_r by lia. rewrite !skipn_all2 by lia. reflexivity.
Qed.

Lemma take_line_prefix (b : bytes) :
  take_line b ++ skipn (length (take_line b)) b = b.
Proof.
  induction b as [|c b IH]; [reflexivity|].
  cbn. destruct (Ascii.eqb c newline); cbn; [reflexivity|].
  rewrite IH. reflexivity.
Qed.

Lemma take_line_nonempty (c : ascii) (b : bytes) :
  1 <= length (take_line (c :: b)).
Proof.
  cbn. destruct (Ascii.eqb c newline); cbn; lia.
Qed.

(** The line [take_line] returns ends at the first newline, when there is
    one, and is everything otherwise. *)
Lemma take_line_spec (b : bytes) :
  (In newline b ->
   exists pre, take_line b = pre ++ [newline] /\ ~ In newline pre)
  /\ (~ In newline b -> take_line b = b).
Proof.
  induction b as [|c b [IH1 IH2]]; cbn.
  - split; [intros [] | reflexivity].
  - destruct (Ascii.eqb_spec c newline) as [->|Hc].
    + split; [|intros H; exfalso; apply H; left; reflexivity].
      intros _. exists []. split; [reflexivity | intros []].
    + split.
      * intros [H|H]; [congruence|].
        destruct (IH1 H) as (pre & E & Hpre).
        exists (c :: pre). cbn. rewrite E. split; [reflexivity|].
        intros [H'|H']; [congruence | exact (Hpre H')].
      * intros H. rewrite IH2; [reflexivity|]. intros H'. apply H. right.
        exact H'.
Qed.

Lemma take_lines_all (fuel : nat) (hint total : Z) (b : bytes) :
  (hint <= 0)%Z -> length b <= fuel ->
  concat (take_lines fuel hint total b) = b
  /\ Forall (fun l => l <> []) (take_lines fuel hint total b).
Proof.
  intros Hh. assert (E : (0 <? hint)%Z = false) by (apply Z.ltb_ge; lia).
  revert total b. induction fuel as [|fuel IH]; intros total b Hlen.
  - destruct b; [split; [reflexivity | constructor] | cbn in Hlen; lia].
  - destruct b as [|c b]; [split; [reflexivity | constructor]|].
    cbn [take_lines]. rewrite E. cbn [andb].
    pose proof (take_line_nonempty c b) as Hne.
    pose proof (take_line_prefix (c :: b)) as Hpre.
    set (line := take_line (c :: b)) in *.
    assert (Hrest : length (skipn (length line) (c :: b)) <= fuel).
    { rewrite length_skipn. cbn [length] in *. lia. }
    destruct (IH (total + Z.of_nat (length line))%Z _ Hrest) as [IHc IHf].
    split.
    + cbn [concat]. rewrite IHc. exact Hpre.
    + constructor; [|exact IHf]. intros H. rewrite H in Hne. cbn in Hne. lia.
Qed.

(** A [read] of a size that fits, on an open readable binary file. *)
Lemma tf_read_some (n : nat) (st : State) :
  tf_closed (tempfile st) = false ->
  tf_readable (tempfile st) = true ->
  tf_binary (tempfile st) = true ->
  (Z.of_nat n <= PY_SSIZE_T_MAX)%Z ->
  let out := firstn n (skipn (pos (tempfile st)) (buf (tempfile st))) in
  tf_read (Z.of_nat n) st
  = (inr out,
     set_tempfile (with_buf_pos (buf (tempfile st))
                                (pos (tempfile st) + length out)
                                (tempfile st)) st).
Proof.
  destruct st as [[bi r w b p c] wd cs]. cbn. intros -> -> -> Hn.
  assert (Hlow : (Z.of_nat n <? -1)%Z = false) by (apply Z.ltb_ge; lia).
  assert (Hneg : (Z.of_nat n <? 0)%Z = false) by (apply Z.ltb_ge; lia).
  unfold_ops. cbn. rewrite (fits_ssize_t_nat n Hn). cbn.
  rewrite Hlow. cbn. rewrite Hneg, Nat2Z.id. reflexivity.
Qed.

(** Reading an open readable binary-mode stream in two pieces, the first
    of [n] bytes out of those that are left, gives what one [read()] gives;
    once the cursor is at the end, [read()] and a [read] of any size up to
    that of the content return nothing and raise nothing. *)
Theorem read_in_pieces (self : S3File) (st : State) (n : nat) :
  readable self = true ->
  tf_closed (tempfile st) = false ->
  tf_readable (tempfile st) = true ->
  tf_binary (tempfile st) = true ->
  (Z.of_nat (length (buf (tempfile st))) <= PY_SSIZE_T_MAX)%Z ->
  let rest := skipn (pos (tempfile st)) (buf (tempfile st)) in
  n <= length rest ->
  exists a b st1 st2,
    read self (Z.of_nat n) st = (inr a, st1)
    /\ read self (-1) st1 = (inr b, st2)
    /\ read self (-1) st = (inr (a ++ b), st2)
    /\ a ++ b = rest
    /\ length a = n
    /\ (exists st3,
          read self (-1) st2 = (inr [], st3)
          /\ buf (tempfile st3) = buf (tempfile st)
          /\ pos (tempfile st3) = pos (tempfile st2))
    /\ (forall m,
          m <= length (buf (tempfile st)) ->
          exists st3,
            read self (Z.of_nat m) st2 = (inr [], st3)
            /\ buf (tempfile st3) = buf (tempfile st)
            /\ pos (tempfile st3) = pos (tempfile st2)).
Proof.
  destruct st as [[bi r w b p c] wd cs]. cbn. intros Hr -> -> -> Hmax Hn.
  remember (skipn p b) as rest eqn:Hrest.
  remember (firstn n rest) as a eqn:Ha.
  assert (Hrl : length rest <= length b)
    by (subst rest; rewrite length_skipn; lia).
  assert (Hb : skipn (p + length a) b = skipn n rest).
  { subst a rest. rewrite Nat.add_comm, <- skipn_skipn.
    apply skipn_firstn_length. }
  assert (Hlen : length rest = length a + length (skipn n rest)).
  { rewrite <- (firstn_skipn n rest) at 1. subst a. apply length_app. }
  assert (Hend : skipn (p + length a + length (skipn n rest)) b = []).
  { apply skipn_all2. rewrite <- Nat.add_assoc, <- Hlen. subst rest.
    rewrite length_skipn. lia. }
  set (st0 := {| tempfile := {| tf_binary := true; tf_readable := true;
                                tf_writable := w; buf := b; pos := p;
                                tf_closed := false |};
                 world := wd; calls := cs |}).
  set (st1 := {| tempfile := {| tf_binary := true; tf_readable := true;
                                tf_writable := w; buf := b;
                                pos := p + length a; tf_closed := false |};
                 world := wd; calls := cs |}).
  set (st2 := {| tempfile := {| tf_binary := true; tf_readable := true;
                                tf_writable := w; buf := b;
                                pos := p + length a + length (skipn n rest);
                                tf_closed := false |};
                 world := wd; calls := cs |}).
  assert (Hguard : forall m s, read self m s = tf_read m s)
    by (intros; unfold read; rewrite Hr; reflexivity).
  exists a, (skipn n rest), st1, st2.
  split.
  { rewrite Hguard, (tf_read_some n st0) by (cbn; try reflexivity; lia).
    cbn. rewrite <- Hrest, <- Ha. reflexivity. }
  split.
  { rewrite Hguard, (tf_read_all st1) by reflexivity. cbn. rewrite Hb.
    reflexivity. }
  split.
  { rewrite Hguard, (tf_read_all st0) by reflexivity. cbn.
    rewrite <- Hrest.
    assert (E : a ++ skipn n rest = rest) by (subst a; apply firstn_skipn).
    rewrite E, Hlen, Nat.add_assoc. reflexivity. }
  split; [subst a; apply firstn_skipn|].
  split; [subst a; rewrite length_firstn; lia|].
  split.
  { eexists. split.
    - rewrite Hguard, (tf_read_all st2) by reflexivity. cbn. rewrite Hend.
      reflexivity.
    - cbn. split; [reflexivity | lia]. }
  intros m Hm. eexists. split.
  - rewrite Hguard, (tf_read_some m st2) by (cbn; try reflexivity; lia).
    cbn. rewrite Hend, firstn_nil. reflexivity.
  - cbn. split; [reflexivity | lia].
Qed.

(** [readline()] on an open readable binary-mode stream returns the start
    of what is left: up to and including the first newline, or all of it
    when there is none; the cursor moves past what was returned. *)
Theorem readline_first_line (self : S3File) (st : State) :
  readable self = true ->
  tf_closed (tempfile st) = false ->
  tf_readable (tempfile st) = true ->
  tf_binary (tempfile st) = true ->
  let rest := skipn (pos (tempfile st)) (buf (tempfile st)) in
  exists line tail st',
    readline self (-1) st = (inr line, st')
    /\ rest = line ++ tail
    /\ pos (tempfile st') = pos (tempfile st) + length line
    /\ buf (tempfile st') = buf (tempfile st)
    /\ (In newline rest ->
        exists pre, line = pre ++ [newline] /\ ~ In newline pre)
    /\ (~ In newline rest -> line = rest /\ tail = []).
Proof.
  destruct st as [[bi r w b p c] wd cs]. cbn. intros Hr -> -> ->.
  set (rest := skipn p b).
  exists (take_line rest), (skipn (length (take_line rest)) rest). eexists.
  split; [run_ops; rewrite Hr; cbn; fits; reflexivity|].
  split; [symmetry; apply take_line_prefix|].
  cbn. split; [reflexivity|]. split; [reflexivity|].
  destruct (take_line_spec rest) as [H1 H2].
  split; [exact H1|].
  intros H. rewrite (H2 H). split; [reflexivity|].
  apply skipn_all2. lia.
Qed.

(** [readlines()] (no positive hint) on an open readable binary-mode stream
    returns non-empty lines whose concatenation is exactly what was left,
    and leaves the cursor past it. *)
Theorem readlines_concat (self : S3File) (st : State) (hint : Z) :
  readable self = true ->
  tf_closed (tempfile st) = false ->
  tf_readable (tempfile st) = true ->
  tf_binary (tempfile st) = true ->
  (hint <= 0)%Z ->
  fits_ssize_t hint = true ->
  exists lines st',
    readlines self hint st = (inr lines, st')
    /\ concat lines = skipn (pos (tempfile st)) (buf (tempfile st))
    /\ Forall (fun l => l <> []) lines
    /\ pos (tempfile st')
       = pos (tempfile st)
         + length (skipn (pos (tempfile st)) (buf (tempfile st)))
    /\ buf (tempfile st') = buf (tempfile st).
Proof.
  destruct st as [[bi r w b p c] wd cs]. cbn. intros Hr -> -> -> Hh Hfit.
  destruct (take_lines_all (length (skipn p b)) hint 0 (skipn p b) Hh
              (Nat.le_refl _)) as [Hc Hf].
  eexists. eexists.
  split; [unfold_ops; rewrite Hr; cbn; rewrite Hfit; reflexivity|].
  cbn. rewrite Hc. auto.
Qed.

(** ** Writing *)

(** What was written on an open binary-mode stream, with the cursor inside
    the content or at its end, is what is read back from where it was
    written; the content before it and after it is kept. *)
Theorem write_read_roundtrip (self : S3File) (st : State) (Y : bytes) :
  readable self = true ->
  writable self = true ->
  tf_closed (tempfile st) = false ->
  tf_readable (tempfile st) = true ->
  tf_writable (tempfile st) = true ->
  tf_binary (tempfile st) = true ->
  pos (tempfile st) <= length (buf (tempfile st)) ->
  (Z.of_nat (pos (tempfile st) + length Y) <= PY_SSIZE_T_MAX)%Z ->
  let p := pos (tempfile st) in
  exists st',
    (write self Y ;; seek self (Z.of_nat p) SEEK_SET ;;
     read self (Z.of_nat (length Y))) st = (inr Y, st')
    /\ skipn (p + length Y) (buf (tempfile st'))
       = skipn (p + length Y) (buf (tempfile st))
    /\ firstn p (buf (tempfile st')) = firstn p (buf (tempfile st))
    /\ pos (tempfile st') = p + length Y
    /\ same_store st st'.
Proof.
  destruct st as [[bi r w b p c] wd cs]. cbn.
  intros Hr Hw -> -> -> -> Hp Hmax.
  destruct (overwrite_read_back b Y p) as (E1 & E2 & E3).
  assert (Ep : (Z.of_nat p <? 0)%Z = false) by (apply Z.ltb_ge; lia).
  assert (Ey : (Z.of_nat (length Y) <? 0)%Z = false) by (apply Z.ltb_ge; lia).
  assert (Ey' : (Z.of_nat (length Y) <? -1)%Z = false)
    by (apply Z.ltb_ge; lia).
  assert (Fp : fits_ssize_t (Z.of_nat p) = true)
    by (apply fits_ssize_t_nat; lia).
  assert (Fy : fits_ssize_t (Z.of_nat (length Y)) = true)
    by (apply fits_ssize_t_nat; lia).
  eexists. split.
  { run_ops. rewrite Hr, Hw. cbn. fits. cbn. rewrite Fp. cbn. rewrite Ep. cbn.
    rewrite Fy. cbn. rewrite Ey'. cbn. rewrite Ey, !Nat2Z.id, E1.
    reflexivity. }
  cbn. unfold same_store. cbn. auto 10.
Qed.

(** Writes made one after the other from the end of the content extend it
    by their concatenation. *)
Lemma write_each_appends (lines : list bytes) (st : State) :
  tf_closed (tempfile st) = false ->
  tf_writable (tempfile st) = true ->
  pos (tempfile st) = length (buf (tempfile st)) ->
  exists st',
    write_each lines st = (inr tt, st')
    /\ buf (tempfile st') = buf (tempfile st) ++ concat lines
    /\ pos (tempfile st') = length (buf (tempfile st'))
    /\ tf_binary (tempfile st') = tf_binary (tempfile st)
    /\ same_store st st'.
Proof.
  revert st. induction lines as [|l ls IH]; intros st Ho Hw Hp.
  - exists st. cbn. rewrite app_nil_r. repeat split; auto.
  - pose proof (tf_write_ok l st Ho Hw) as E.
    rewrite Hp, overwrite_at_end in E.
    match type of E with
    | _ = (_, ?s) => set (st1 := s) in *
    end.
    destruct (IH st1) as (st' & Hrun & Hbuf & Hpos & Hbin & Hs).
    { exact Ho. }
    { exact Hw. }
    { cbn. rewrite length_app. reflexivity. }
    exists st'. cbn [write_each]. rewrite (bind_ok _ _ _ _ _ E).
    split; [exact Hrun|]. cbn in Hbuf. cbn [concat].
    split; [rewrite Hbuf, <- app_assoc; reflexivity|].
    split; [exact Hpos|]. split; [exact Hbin|].
    eapply same_store_trans; [|exact Hs].
    unfold same_store. cbn. auto.
Qed.

(** In a mode that does not fetch ([w], [x] and their variants) the
    constructor contacts the store not at all and the buffer starts empty,
    whatever the remote object holds; with a readable scratch file,
    [writelines(lines)] followed by [close()] hands the store the
    concatenation of the lines as the scratch file reads it (as it is from a
    binary-mode stream, with its line endings translated from a text-mode
    one), in one push, and [close] returns or raises what the store's answer
    says. *)
Theorem write_mode_pushes_written (b k m : string) (w : World)
  (cs : list Call) (tf0 : TempFile) :
  TemporaryFile (updatable_mode m) = inr tf0 ->
  fetches m = false ->
  tf_readable tf0 = true ->
  exists self st,
    S3File_init b k m w cs = Opened self st
    /\ buf (tempfile st) = []
    /\ calls st = cs /\ world st = w
    /\ forall lines,
         let sent := as_read (contains "b" m) (concat lines) in
         let put := s3_put b k sent w in
         exists st',
           (writelines self lines ;; close self) st
           = (match fst put with
              | Some e => inl (s3errors_raise (b ++ "/" ++ k) e)
              | None => inr tt
              end, st')
           /\ calls st' = cs ++ [CallUpload b k; StorePut b k sent]
           /\ world st' = snd put
           /\ tf_closed (tempfile st') = true
           /\ (contains "b" m = true \/ plain_newlines (concat lines) = true ->
               sent = concat lines).
Proof.
  intros Htf Hf Hr.
  destruct (scratch_file _ _ Htf) as (Hb & Hp & Hc & _ & Hwr).
  pose proof (scratch_binary _ _ Htf) as Hbin.
  assert (Hself : contains "w" m || contains "a" m || contains "+" m
                  || contains "x" m = true).
  { unfold fetches in Hf. destruct (contains "a" m), (contains "w" m),
      (contains "x" m); try discriminate; cbn; rewrite ?orb_true_r;
      reflexivity. }
  specialize (Hwr Hself).
  eexists. eexists. split; [apply (init_no_fetch _ _ _ _ _ _ Htf Hf)|].
  cbn_fields. split; [exact Hb|]. split; [reflexivity|].
  split; [reflexivity|].
  intros lines. cbn zeta.
  match goal with
  | |- context [bind (writelines ?self lines) _ ?s] =>
      destruct (write_each_appends lines s Hc Hwr)
        as (st1 & Hrun & Hbuf & _ & Hbi & (Hwd & Hcalls & Hrd & _ & Hcl));
        [cbn; rewrite Hb, Hp; reflexivity|];
      assert (Hwl : writelines self lines s = (inr tt, st1))
  end.
  { unfold writelines, writable. cbn_fields. rewrite Hself. cbn [negb].
    unfold tf_writelines, checked, bind. cbn_fields. rewrite Hc. cbn.
    exact Hrun. }
  cbn_fields. rewrite Hb in Hbuf. cbn in Hbuf.
  match goal with
  | |- context [close ?self] =>
      destruct (close_writable self st1 Hself) as (st' & H & Hcl' & _);
        [congruence|]
  end.
  rewrite Hrd, Hr in H. cbn_fields. cbn zeta in H.
  unfold content in H. rewrite Hbuf, Hbi, Hbin, Hwd, Hcalls in H.
  cbn_fields. destruct H as (H & Hc' & Hw').
  exists st'. rewrite (bind_ok _ _ _ _ _ Hwl).
  split; [exact H|]. split; [exact Hc'|]. split; [exact Hw'|].
  split; [exact Hcl'|]. apply as_read_plain.
Qed.

(** In an append mode that is also readable ([a+]) the cursor starts at
    the end: [read()] returns nothing, and closing without writing hands the
    store the content that was fetched, as the scratch file reads it: as it
    is from a binary-mode stream or when it has no carriage return, and with
    its line endings translated otherwise. *)
Theorem append_read_at_end (b k m : string) (w w1 : World) (cs : list Call)
  (tf0 : TempFile) (X : bytes) :
  TemporaryFile (updatable_mode m) = inr tf0 ->
  contains "a" m = true ->
  contains "r" m || contains "+" m = true ->
  s3_get b k w = (inr X, w1) ->
  exists self st st1 r st2,
    S3File_init b k m w cs = Opened self st
    /\ read self (-1) st = (inr [], st1)
    /\ close self st1 = (r, st2)
    /\ pushed (calls st2) = pushed cs ++ [as_read (contains "b" m) X]
    /\ (contains "b" m = true \/ plain_newlines X = true ->
        pushed (calls st2) = pushed cs ++ [X])
    /\ upload_count (calls st2) = upload_count cs + 1.
Proof.
  intros Htf Ha Hr Hget.
  destruct (scratch_file _ _ Htf) as (Hb & Hp & Hc & Hrd & Hwr).
  pose proof (scratch_binary _ _ Htf) as Hbin.
  specialize (Hrd Hr).
  assert (Hself : contains "w" m || contains "a" m || contains "+" m
                  || contains "x" m = true)
    by (rewrite Ha, !orb_true_r; reflexivity).
  specialize (Hwr Hself).
  assert (Hf : fetches m = true) by (unfold fetches; rewrite Ha; reflexivity).
  pose proof (init_fetch_ok _ _ _ _ _ cs _ _ Htf Hf Hget Hwr) as Hinit.
  rewrite Ha in Hinit.
  set (self := {| bucket := b; key := k; mode := m;
                  path := (b ++ "/" ++ k)%string |}) in *.
  set (st := {| tempfile := with_buf_pos X (length X) tf0;
                world := w1; calls := cs ++ [CallDownload b k] |}) in *.
  set (st1 := {| tempfile := with_buf_pos X (length X + 0) tf0;
                 world := w1; calls := cs ++ [CallDownload b k] |}).
  assert (Hread : read self (-1) st = (inr [], st1)).
  { unfold read, readable, self. cbn_fields. rewrite Hr. cbn [negb].
    rewrite tf_read_all by (cbn; assumption).
    cbn. rewrite skipn_all. destruct (tf_binary tf0); reflexivity. }
  destruct (close_writable self st1 Hself Hc)
    as (st2 & H & _ & _ & Hup & _).
  assert (Hrd1 : tf_readable (tempfile st1) = true) by exact Hrd.
  assert (Hcontent : content (tempfile st1) = as_read (contains "b" m) X)
    by (unfold content; cbn; rewrite Hbin; reflexivity).
  rewrite Hrd1 in H. cbn zeta in H. rewrite Hcontent in H.
  destruct H as (H & Hcalls & _).
  assert (Hpushed : pushed (calls st2)
                    = pushed cs ++ [as_read (contains "b" m) X]).
  { rewrite Hcalls. unfold st1. cbn [calls].
    rewrite <- app_assoc, !pushed_app. cbn. reflexivity. }
  exists self, st, st1. eexists. exists st2.
  split; [exact Hinit|]. split; [exact Hread|].
  split; [exact H|]. split; [exact Hpushed|].
  split; [|rewrite Hup; unfold st1; count_calls].
  intros Hplain. rewrite Hpushed, (as_read_plain _ _ Hplain). reflexivity.
Qed.

(** A mode whose scratch file cannot be written (a read mode the
    substitution leaves alone, such as [rt] or [br]) never yields a stream:
    the constructor fetches, and raises, either the fetch's translated error
    or, when the fetch succeeded, the scratch file's refusal of the content;
    the scratch file is closed and nothing is pushed. *)
Theorem unwritable_scratch_never_opens (b k m : string) (w : World)
  (cs : list Call) (tf0 : TempFile) :
  TemporaryFile (updatable_mode m) = inr tf0 ->
  tf_writable tf0 = false ->
  exists e st,
    S3File_init b k m w cs = Failed e st
    /\ e = match fst (s3_get b k w) with
           | inl e0 => s3errors_raise (b ++ "/" ++ k) e0
           | inr _ => UnsupportedOperation "not writable"
           end
    /\ tf_closed (tempfile st) = true
    /\ calls st = cs ++ [CallDownload b k]
    /\ world st = snd (s3_get b k w).
Proof.
  intros Htf Hw.
  destruct (scratch_file _ _ Htf) as (_ & _ & _ & _ & Hwr).
  assert (Hself : contains "w" m || contains "a" m || contains "+" m
                  || contains "x" m = false).
  { destruct (contains "w" m || contains "a" m || contains "+" m
              || contains "x" m); [|reflexivity].
    rewrite Hwr in Hw; [discriminate | reflexivity]. }
  assert (Hf : fetches m = true).
  { unfold fetches. destruct (contains "w" m), (contains "a" m),
      (contains "x" m); try reflexivity; cbn in Hself;
      rewrite ?orb_true_r in Hself; discriminate. }
  destruct (s3_get b k w) as [[e0|X] w1] eqn:Hget.
  - destruct (fetch_failure_translated _ _ _ _ _ cs _ _ Htf Hf Hself Hget)
      as (st & E & Hc & Hcalls & Hwd).
    exists (s3errors_raise (b ++ "/" ++ k) e0), st. cbn. auto.
  - destruct (init_fetch_unwritable _ _ _ _ _ cs _ _ Htf Hf Hget Hw)
      as (st & E & Hc & Hcalls & Hwd).
    exists (UnsupportedOperation "not writable"), st. cbn. auto.
Qed.

(** With a scratch file that cannot be read (modes such as [x], [wt],
    [at], which the substitution leaves without [+]) [close()] of an open
    writable stream always raises: the upload cannot read the scratch file,
    so nothing that was written reaches the store. *)
Theorem unreadable_scratch_never_stores (self : S3File) (st : State) :
  writable self = true ->
  tf_closed (tempfile st) = false ->
  tf_readable (tempfile st) = false ->
  exists st',
    close self st = (inl (UnsupportedOperation "not readable"), st')
    /\ pushed (calls st') = pushed (calls st)
    /\ world st' = world st
    /\ tf_closed (tempfile st') = true.
Proof.
  intros Hw Ho Hr.
  destruct (close_writable self st Hw Ho) as (st' & H & Hcl & _).
  rewrite Hr in H. destruct H as (H & Hcalls & Hwd).
  exists st'. split; [exact H|]. rewrite Hcalls, pushed_app. cbn.
  rewrite app_nil_r. auto.
Qed.

End Further.

(** * [open_url] *)

Lemma lstrip_spec (c : ascii) (s : string) :
  exists stripped,
    s = (stripped ++ lstrip c s)%string
    /\ all_in (String c "") stripped = true
    /\ (forall rest, lstrip c s <> String c rest).
Proof.
  induction s as [|d s (stripped & E & Hall & Hhead)].
  - exists ""%string. repeat split. intros rest H. discriminate H.
  - cbn [lstrip]. destruct (Ascii.eqb_spec d c) as [->|Hd].
    + exists (String c stripped). cbn. rewrite <- E, Ascii.eqb_refl, Hall.
      repeat split. exact Hhead.
    + exists ""%string. repeat split. intros rest H. inversion H. congruence.
Qed.

Lemma lstrip_idempotent (c : ascii) (s : string) :
  lstrip c (lstrip c s) = lstrip c s.
Proof.
  induction s as [|d s IH]; [reflexivity|].
  cbn [lstrip]. destruct (Ascii.eqb d c) eqn:E; [exact IH|].
  cbn [lstrip]. rewrite E. reflexivity.
Qed.

(** For a URL of scheme [s3], [open_url] constructs the [S3File] of the
    URL's host and of its path without its leading slashes, however many
    there are, and leaves the local filesystem alone: the key never starts
    with a slash, and the stream's path is the host, one slash and the
    key. *)
Theorem open_url_s3 {store : ObjectStore} {fs : LocalFS}
  (url mode : string) (f : FS) (w : World) (cs : list Call) :
  scheme (urlparse url) = "s3"%string ->
  exists slashes k,
    url_path (urlparse url) = (slashes ++ k)%string
    /\ all_in "/" slashes = true
    /\ (forall rest, k <> String "/" rest)
    /\ open_url url mode f w cs
       = Remote (S3File_init (netloc (urlparse url)) k mode w cs) f
    /\ (forall self st,
          S3File_init (netloc (urlparse url)) k mode w cs = Opened self st ->
          key self = k
          /\ path self = (netloc (urlparse url) ++ "/" ++ k)%string).
Proof.
  intros Hs.
  destruct (lstrip_spec "/" (url_path (urlparse url)))
    as (slashes & E & Hall & Hhead).
  exists slashes, (lstrip "/" (url_path (urlparse url))).
  split; [exact E|]. split; [exact Hall|]. split; [exact Hhead|].
  split; [unfold open_url; rewrite Hs; reflexivity|].
  intros self st Hinit.
  destruct (init_opened _ _ _ _ _ _ _ Hinit) as [-> _]. split; reflexivity.
Qed.

(** * Closing, the substitution and the scratch file, restated for users *)

(** [close()] of an open writable stream whose scratch file can be read
    hands the store the whole content of the scratch file, read from its
    start, wherever the cursor is, in one [upload_fileobj] call: the buffer
    as it is from a binary-mode stream or when it has no carriage return,
    and the buffer with every line ending translated to a newline from a
    text-mode stream.  [close] returns when the store accepts, raises the
    translated exception when the store raises, and has closed the scratch
    file in both cases. *)
Theorem close_pushes_whole_buffer {store : ObjectStore}
  (self : S3File) (st : State) :
  writable self = true ->
  tf_closed (tempfile st) = false ->
  tf_readable (tempfile st) = true ->
  let sent := as_read (tf_binary (tempfile st)) (buf (tempfile st)) in
  let put := s3_put (bucket self) (key self) sent (world st) in
  exists st',
    close self st
    = (match fst put with
       | Some e => inl (s3errors_raise (path self) e)
       | None => inr tt
       end, st')
    /\ calls st' = calls st ++ [CallUpload (bucket self) (key self);
                                StorePut (bucket self) (key self) sent]
    /\ world st' = snd put
    /\ tf_closed (tempfile st') = true
    /\ (tf_binary (tempfile st) = true
        \/ plain_newlines (buf (tempfile st)) = true ->
        sent = buf (tempfile st)).
Proof.
  intros Hw Ho Hr sent put.
  destruct (close_writable self st Hw Ho) as (st' & H & Hcl & _).
  rewrite Hr in H. cbn zeta in H. destruct H as (H & Hcalls & Hwd).
  exists st'. split; [exact H|]. split; [exact Hcalls|].
  split; [exact Hwd|]. split; [exact Hcl|]. apply as_read_plain.
Qed.

(** The substitution of [__init__] changes a mode only by inserting one
    [+]: every other character is there before exactly when it is there
    after, a mode that already has a [+] is left as it is, and the result is
    a recognized mode exactly when the mode was. *)
Theorem mode_substitution (m : string) :
  recognized_mode (updatable_mode m) = recognized_mode m
  /\ (forall c, c <> "+"%char ->
                contains c (updatable_mode m) = contains c m)
  /\ (contains "+" m = true -> updatable_mode m = m)
  /\ (updatable_mode m <> m ->
      String.length (updatable_mode m) = S (String.length m)
      /\ contains "+" (updatable_mode m) = true).
Proof.
  split; [apply recognized_updatable_mode|].
  split.
  { intros c Hc. rewrite contains_updatable_mode.
    destruct (Ascii.eqb_spec c "+"); [contradiction|].
    cbn. apply orb_false_r. }
  destruct (updatable_mode_cases m)
    as [E | (run & rest & Hm & E & Hrun & Hrest)].
  - split; [intros _; exact E|]. intros H. contradiction.
  - assert (Hplus : contains "+" m = false).
    { subst m. rewrite contains_append.
      assert (Hr : contains "+" run = false).
      { rewrite contains_occurrences.
        rewrite (all_in_occurrences "rwa" run "+" Hrun eq_refl).
        reflexivity. }
      rewrite Hr. destruct Hrest as [->|[->|[->| ->]]]; reflexivity. }
    split; [rewrite Hplus; discriminate|].
    intros _. rewrite E. subst m. split.
    + rewrite !length_append. cbn. lia.
    + rewrite !contains_append. cbn. apply orb_true_r.
Qed.

(** The scratch file of a stream starts empty and open and can do at least
    what the stream allows: a readable stream has a readable scratch file, a
    writable stream a writable one.  For the plain modes [r], [w], [a] and
    their binary forms it can do both, so that content can be fetched into
    it and pushed from it. *)
Theorem scratch_at_least_as_capable (self : S3File) (tf0 : TempFile) :
  TemporaryFile (updatable_mode (mode self)) = inr tf0 ->
  buf tf0 = [] /\ pos tf0 = 0 /\ tf_closed tf0 = false
  /\ (readable self = true -> tf_readable tf0 = true)
  /\ (writable self = true -> tf_writable tf0 = true)
  /\ (In (mode self) ["r"; "w"; "a"; "rb"; "wb"; "ab"]%string ->
      tf_readable tf0 = true /\ tf_writable tf0 = true).
Proof.
  intros Htf.
  destruct (scratch_file _ _ Htf) as (Hb & Hp & Hc & Hr & Hw).
  split; [exact Hb|]. split; [exact Hp|]. split; [exact Hc|].
  split; [exact Hr|]. split; [exact Hw|].
  intros [E|[E|[E|[E|[E|[E|[]]]]]]]; rewrite <- E in Htf;
    cbv in Htf; inversion Htf; split; reflexivity.
Qed.

(** * The further properties on the test double *)

Lemma use_after_close_witness :
  stream_state (test_file "r+") closed_state
  /\ tf_closed (tempfile closed_state) = true
  /\ stream_state (test_file "r+b") closed_binary_state
  /\ read (test_file "r+") (-1) closed_state = (inl closed_file, closed_state)
  /\ write (test_file "r+") foo closed_state = (inl closed_file, closed_state)
  /\ seek (test_file "r+") 0 SEEK_SET closed_state
     = (inl closed_file, closed_state)
  /\ readinto (test_file "r+") foo closed_state
     = (inl no_readinto, closed_state)
  /\ readinto (test_file "r+b") foo closed_binary_state
     = (inl closed_file, closed_binary_state).
Proof.
  assert (Hst : stream_state (test_file "r+") closed_state).
  { eexists. split; [reflexivity|]. cbn. auto. }
  assert (Hstb : stream_state (test_file "r+b") closed_binary_state).
  { eexists. split; [reflexivity|]. cbn. auto. }
  split; [exact Hst|]. split; [reflexivity|]. split; [exact Hstb|].
  destruct (@use_after_close mock_store (test_file "r+") closed_state Hst
              eq_refl)
    as (_ & Hr & Hi & Hw & Hs & _).
  destruct (@use_after_close mock_store (test_file "r+b") closed_binary_state
              Hstb eq_refl)
    as (_ & _ & Hib & _).
  split.
  { apply (proj1 (Hr eq_refl)). split; apply Z.leb_le; reflexivity. }
  split; [exact (proj1 (Hw eq_refl) foo)|].
  split; [exact (Hs 0%Z SEEK_SET (or_introl eq_refl))|].
  split; [exact (Hi foo) | exact (Hib foo)].
Defined.

Lemma seek_returns_position_witness :
  make_s3file "r+b" gettysburg_world = Opened (test_file "r+b") binary_state
  /\ tf_closed (tempfile binary_state) = false
  /\ fits_ssize_t (-5) = true
  /\ (exists st',
        seek (test_file "r+b") (-5) SEEK_END binary_state
        = (inr (Z.of_nat (length GETTYSBURG) + -5)%Z, st')
        /\ tell (test_file "r+b") st'
           = (inr (Z.of_nat (length GETTYSBURG) + -5)%Z, st'))
  /\ seek (test_file "r+b") (-5) SEEK_SET binary_state
     = (inl invalid_argument, binary_state)
  /\ (exists msg,
        seek (test_file "r+") (-5) SEEK_END update_state
        = (inl (UnsupportedOperation msg), update_state))
  /\ (exists st',
        seek (test_file "r+") 0 SEEK_END update_state
        = (inr (Z.of_nat (length GETTYSBURG) + 0)%Z, st')).
Proof.
  split; [by_computation|]. split; [reflexivity|]. split; [reflexivity|].
  assert (H7 : seven_bit (buf (tempfile update_state)) = true)
    by (vm_compute; reflexivity).
  split; [|split; [|split]].
  - destruct (@seek_returns_position mock_store (test_file "r+b") binary_state
                (-5) SEEK_END eq_refl (or_intror (or_intror eq_refl)) eq_refl)
      as [H _].
    destruct (proj1 (H eq_refl)) as (st' & Hseek & Htell & _).
    { split; apply Z.leb_le; vm_compute; reflexivity. }
    exists st'. split; [exact Hseek | exact Htell].
  - destruct (@seek_returns_position mock_store (test_file "r+b") binary_state
                (-5) SEEK_SET eq_refl (or_introl eq_refl) eq_refl)
      as [H _].
    apply (proj2 (H eq_refl)). reflexivity.
  - destruct (@seek_returns_position mock_store (test_file "r+") update_state
                (-5) SEEK_END eq_refl (or_intror (or_intror eq_refl)) eq_refl)
      as [_ H].
    apply (proj1 (H eq_refl)); discriminate.
  - destruct (@seek_returns_position mock_store (test_file "r+") update_state
                0 SEEK_END eq_refl (or_intror (or_intror eq_refl)) eq_refl)
      as [_ H].
    destruct (proj2 (proj2 (H eq_refl)) H7 (or_intror (conj eq_refl eq_refl)))
      as (st' & Hseek & _).
    exists st'. exact Hseek.
Defined.

Lemma s3errors_raise_normalizes_witness :
  store_specific SSLError = true
  /\ store_specific (ValueError "x") = false
  /\ s3errors_raise "b/k" (ValueError "x") = ValueError "x"
  /\ exists errno kind,
       s3errors_raise "b/k" SSLError = IOError_errno errno "b/k"
       /\ kind_of (s3errors_raise "b/k" SSLError) = Some kind.
Proof.
  split; [reflexivity|]. split; [reflexivity|].
  split.
  - exact (proj1 (proj2 (proj2 (s3errors_raise_normalizes "b/k"
                                  (ValueError "x")))) eq_refl).
  - exact (proj2 (proj2 (proj2 (s3errors_raise_normalizes "b/k" SSLError)))
             eq_refl).
Defined.

Lemma with_stream_closes_witness :
  let body := fun self : S3File => write self foo in
  tf_closed (tempfile (snd (body (test_file "r+") update_state))) = false
  /\ tf_closed (tempfile (snd (with_stream (test_file "r+") body
                                 update_state))) = true
  /\ upload_count (calls (snd (with_stream (test_file "r+") body
                                 update_state))) = 1.
Proof.
  intros body. split; [reflexivity|].
  destruct (@with_stream_closes mock_store nat (test_file "r+") body
              update_state) as (Hc & Hup & _).
  split; [exact Hc | exact (Hup eq_refl)].
Defined.

Lemma read_in_pieces_witness :
  readable (test_file "r+b") = true
  /\ tf_closed (tempfile binary_state) = false
  /\ tf_readable (tempfile binary_state) = true
  /\ tf_binary (tempfile binary_state) = true
  /\ 24 <= length GETTYSBURG
  /\ exists a b st1 st2,
       read (test_file "r+b") 24 binary_state = (inr a, st1)
       /\ read (test_file "r+b") (-1) st1 = (inr b, st2)
       /\ a ++ b = GETTYSBURG
       /\ length a = 24.
Proof.
  split; [reflexivity|]. split; [reflexivity|]. split; [reflexivity|].
  split; [reflexivity|].
  assert (H24 : 24 <= length GETTYSBURG) by (apply Nat.leb_le; reflexivity).
  split; [exact H24|].
  destruct (@read_in_pieces mock_store (test_file "r+b") binary_state 24
              eq_refl eq_refl eq_refl eq_refl)
    as (a & b & st1 & st2 & H1 & H2 & _ & H3 & H4 & _).
  { apply Z.leb_le. vm_compute. reflexivity. }
  { exact H24. }
  exists a, b, st1, st2. split; [exact H1|]. split; [exact H2|].
  split; [exact H3 | exact H4].
Defined.

Lemma readline_first_line_witness :
  readable (test_file "r+b") = true
  /\ tf_closed (tempfile binary_state) = false
  /\ tf_readable (tempfile binary_state) = true
  /\ tf_binary (tempfile binary_state) = true
  /\ exists line tail st',
       readline (test_file "r+b") (-1) binary_state = (inr line, st')
       /\ GETTYSBURG = line ++ tail.
Proof.
  split; [reflexivity|]. split; [reflexivity|]. split; [reflexivity|].
  split; [reflexivity|].
  destruct (@readline_first_line mock_store (test_file "r+b") binary_state
              eq_refl eq_refl eq_refl eq_refl)
    as (line & tail & st' & H1 & H2 & _).
  exists line, tail, st'. split; [exact H1 | exact H2].
Defined.

Lemma readlines_concat_witness :
  readable (test_file "r+b") = true
  /\ tf_closed (tempfile binary_state) = false
  /\ tf_readable (tempfile binary_state) = true
  /\ tf_binary (tempfile binary_state) = true
  /\ (-1 <= 0)%Z
  /\ fits_ssize_t (-1) = true
  /\ exists lines st',
       readlines (test_file "r+b") (-1) binary_state = (inr lines, st')
       /\ concat lines = GETTYSBURG.
Proof.
  split; [reflexivity|]. split; [reflexivity|]. split; [reflexivity|].
  split; [reflexivity|].
  assert (H : (-1 <= 0)%Z) by (apply Z.leb_le; reflexivity).
  split; [exact H|]. split; [reflexivity|].
  destruct (@readlines_concat mock_store (test_file "r+b") binary_state (-1)
              eq_refl eq_refl eq_refl eq_refl H eq_refl)
    as (lines & st' & H1 & H2 & _).
  exists lines, st'. split; [exact H1 | exact H2].
Defined.

Lemma write_read_roundtrip_witness :
  readable (test_file "r+b") = true
  /\ writable (test_file "r+b") = true
  /\ tf_closed (tempfile binary_state) = false
  /\ tf_readable (tempfile binary_state) = true
  /\ tf_writable (tempfile binary_state) = true
  /\ tf_binary (tempfile binary_state) = true
  /\ pos (tempfile binary_state) <= length (buf (tempfile binary_state))
  /\ exists st',
       (write (test_file "r+b") foo ;; seek (test_file "r+b") 0 SEEK_SET ;;
        read (test_file "r+b") 4) binary_state = (inr foo, st').
Proof.
  split; [reflexivity|]. split; [reflexivity|]. split; [reflexivity|].
  split; [reflexivity|]. split; [reflexivity|]. split; [reflexivity|].
  assert (Hp : pos (tempfile binary_state)
               <= length (buf (tempfile binary_state)))
    by (apply Nat.leb_le; reflexivity).
  split; [exact Hp|].
  destruct (@write_read_roundtrip mock_store (test_file "r+b") binary_state foo
              eq_refl eq_refl eq_refl eq_refl eq_refl eq_refl Hp)
    as (st' & H & _).
  { apply Z.leb_le. vm_compute. reflexivity. }
  exists st'. exact H.
Defined.

Lemma write_mode_pushes_written_witness :
  TemporaryFile (updatable_mode "w")
  = inr {| tf_binary := false; tf_readable := true; tf_writable := true;
           buf := []; pos := 0; tf_closed := false |}
  /\ fetches "w" = false
  /\ plain_newlines (concat [foo; bar]) = true
  /\ exists self st,
       make_s3file "w" gettysburg_world = Opened self st
       /\ buf (tempfile st) = []
       /\ exists st',
            (writelines self [foo; bar] ;; close self) st = (inr tt, st')
            /\ remote (world st') = Some (foo ++ bar).
Proof.
  split; [reflexivity|]. split; [reflexivity|]. split; [reflexivity|].
  destruct (@write_mode_pushes_written mock_store "test-bucket"
              "path/to/gettysburg.txt" "w" gettysburg_world [] _
              eq_refl eq_refl eq_refl)
    as (self & st & Hinit & Hbuf & _ & _ & Hpush).
  exists self, st. split; [exact Hinit|]. split; [exact Hbuf|].
  destruct (Hpush [foo; bar]) as (st' & Hrun & _ & Hwd & _ & Hsent).
  exists st'. split; [exact Hrun|].
  rewrite Hwd, (Hsent (or_intror eq_refl)). reflexivity.
Defined.

Lemma append_read_at_end_witness :
  TemporaryFile (updatable_mode "a+") = inr append_scratch
  /\ contains "a" "a+" = true
  /\ contains "r" "a+" || contains "+" "a+" = true
  /\ plain_newlines GETTYSBURG = true
  /\ exists self st st1 r st2,
       make_s3file "a+" gettysburg_world = Opened self st
       /\ read self (-1) st = (inr [], st1)
       /\ close self st1 = (r, st2)
       /\ pushed (calls st2) = [GETTYSBURG].
Proof.
  assert (Hplain : plain_newlines GETTYSBURG = true)
    by (vm_compute; reflexivity).
  split; [reflexivity|]. split; [reflexivity|]. split; [reflexivity|].
  split; [exact Hplain|].
  destruct (@append_read_at_end mock_store "test-bucket"
              "path/to/gettysburg.txt" "a+" gettysburg_world gettysburg_world
              [] append_scratch GETTYSBURG eq_refl eq_refl eq_refl eq_refl)
    as (self & st & st1 & r & st2 & H1 & H2 & H3 & _ & H4 & _).
  exists self, st, st1, r, st2. split; [exact H1|]. split; [exact H2|].
  split; [exact H3|]. exact (H4 (or_intror Hplain)).
Defined.

Lemma unwritable_scratch_never_opens_witness :
  TemporaryFile (updatable_mode "rt")
  = inr {| tf_binary := false; tf_readable := true; tf_writable := false;
           buf := []; pos := 0; tf_closed := false |}
  /\ exists st,
       make_s3file "rt" gettysburg_world
       = Failed (UnsupportedOperation "not writable") st
       /\ tf_closed (tempfile st) = true.
Proof.
  split; [reflexivity|].
  destruct (@unwritable_scratch_never_opens mock_store "test-bucket"
              "path/to/gettysburg.txt" "rt" gettysburg_world [] _
              eq_refl eq_refl)
    as (e & st & Hinit & He & Hc & _).
  exists st. split; [|exact Hc]. unfold make_s3file. rewrite Hinit, He.
  reflexivity.
Defined.

Lemma unreadable_scratch_never_stores_witness :
  make_s3file "x" gettysburg_world
  = Opened (test_file "x")
           {| tempfile := {| tf_binary := false;
                             tf_readable := false; tf_writable := true;
                             buf := []; pos := 0; tf_closed := false |};
              world := gettysburg_world; calls := [] |}
  /\ write (test_file "x") foo
       {| tempfile := {| tf_binary := false;
                         tf_readable := false; tf_writable := true;
                         buf := []; pos := 0; tf_closed := false |};
          world := gettysburg_world; calls := [] |}
     = (inr 4, exclusive_state)
  /\ writable (test_file "x") = true
  /\ tf_closed (tempfile exclusive_state) = false
  /\ tf_readable (tempfile exclusive_state) = false
  /\ exists st',
       close (test_file "x") exclusive_state
       = (inl (UnsupportedOperation "not readable"), st')
       /\ pushed (calls st') = []
       /\ world st' = gettysburg_world.
Proof.
  split; [reflexivity|]. split; [reflexivity|]. split; [reflexivity|].
  split; [reflexivity|]. split; [reflexivity|].
  destruct (@unreadable_scratch_never_stores mock_store (test_file "x")
              exclusive_state eq_refl eq_refl eq_refl)
    as (st' & H1 & H2 & H3 & _).
  exists st'. auto.
Defined.

Lemma open_url_s3_witness :
  scheme (urlparse "s3://test-bucket///path/to/gettysburg.txt") = "s3"%string
  /\ open_url "s3://test-bucket///path/to/gettysburg.txt" "r" []
       gettysburg_world []
     = Remote (make_s3file "r" gettysburg_world) []
  /\ exists slashes k,
       url_path (urlparse "s3://test-bucket///path/to/gettysburg.txt")
       = (slashes ++ k)%string
       /\ (forall rest, k <> String "/" rest).
Proof.
  split; [reflexivity|]. split; [reflexivity|].
  destruct (@open_url_s3 mock_store example_fs
              "s3://test-bucket///path/to/gettysburg.txt" "r" []
              gettysburg_world [] eq_refl)
    as (slashes & k & H1 & _ & H2 & _).
  exists slashes, k. split; [exact H1 | exact H2].
Defined.

Lemma close_pushes_whole_buffer_witness :
  writable (test_file "r+") = true
  /\ tf_closed (tempfile mixed_state) = false
  /\ tf_readable (tempfile mixed_state) = true
  /\ exists st',
       close (test_file "r+") mixed_state = (inr tt, st')
       /\ remote (world st')
          = Some (list_ascii_of_string
                    ("one" ++ String newline ("two" ++ String newline
                       ("three" ++ String newline "")))).
Proof.
  split; [reflexivity|]. split; [reflexivity|].
  split; [reflexivity|].
  destruct (@close_pushes_whole_buffer mock_store (test_file "r+") mixed_state
              eq_refl eq_refl eq_refl)
    as (st' & H1 & _ & H2 & _).
  exists st'. split; [exact H1|]. rewrite H2. reflexivity.
Defined.

Lemma mode_substitution_witness :
  updatable_mode "ab" <> "ab"%string
  /\ String.length (updatable_mode "ab") = 3
  /\ contains "+" "r+" = true
  /\ updatable_mode "r+" = "r+"%string.
Proof.
  assert (H : updatable_mode "ab" <> "ab"%string)
    by (intros E; discriminate E).
  split; [exact H|].
  split.
  - exact (proj1 (proj2 (proj2 (proj2 (mode_substitution "ab"))) H)).
  - split; [reflexivity|].
    exact (proj1 (proj2 (proj2 (mode_substitution "r+"))) eq_refl).
Defined.

Lemma scratch_at_least_as_capable_witness :
  TemporaryFile (updatable_mode (mode (test_file "r")))
  = inr {| tf_binary := false; tf_readable := true; tf_writable := true;
           buf := []; pos := 0; tf_closed := false |}
  /\ readable (test_file "r") = true
  /\ tf_readable {| tf_binary := false; tf_readable := true;
                    tf_writable := true; buf := [];
                    pos := 0; tf_closed := false |} = true.
Proof.
  split; [reflexivity|]. split; [reflexivity|].
  exact (proj1 (proj2 (proj2 (proj2
           (@scratch_at_least_as_capable (test_file "r") _ eq_refl))))
           eq_refl).
Defined.

Lemma failed_construction_releases_witness :
  exists st,
    make_s3file "r" empty_world
    = Failed (IOError_errno ENOENT "test-bucket/path/to/gettysburg.txt") st
    /\ tf_closed (tempfile st) = true.
Proof.
  eexists. split; [reflexivity|].
  match goal with
  | |- tf_closed (tempfile ?st) = true =>
      exact (@failed_construction_releases mock_store "test-bucket"
               "path/to/gettysburg.txt" "r" empty_world []
               (IOError_errno ENOENT "test-bucket/path/to/gettysburg.txt")
               st eq_refl)
  end.
Defined.

Lemma capability_guards_witness :
  readable (test_file "w") = false
  /\ writable (test_file "r") = false
  /\ read (test_file "w") (-1) update_state
     = (inl (IOError_msg "not open for reading"), update_state)
  /\ truncate (test_file "r") None update_state
     = (inl (IOError_msg "not open for writing"), update_state).
Proof.
  split; [reflexivity|]. split; [reflexivity|].
  split.
  - exact (proj1 (proj1 (@capability_guards mock_store (test_file "w")
                           update_state) eq_refl) (-1)%Z).
  - exact (proj2 (proj2 (proj2 (@capability_guards mock_store (test_file "r")
                                  update_state) eq_refl)) None).
Defined.
